(** * Schedy: result algebra, schedule evaluation and room reconciliation

    A shallow embedding of [hass_apps/schedy/expression.py],
    [hass_apps/schedy/room.py], [hass_apps/schedy/actor/generic.py] and the
    event handling of [hass_apps/schedy/app.py].

    Python objects that the program mutates in place (the results of
    expressions, whose [value] attribute is overwritten after validation)
    live in an explicit object store and are referred to by address, so that
    the expression cache, the scan result and the accumulator of
    [eval_schedule] alias exactly as they do in the program. *)

From Stdlib Require Import ZArith Lia.
From stdpp Require Import base tactics option list gmap strings.

Local Open Scope Z_scope.
Local Open Scope nat_scope.

(** ** Python values and exceptions *)

(** The payloads that schedules, expressions and actors exchange.  [bool] is
    a subclass of [int] in Python, which [as_int] records. *)
Inductive PyVal : Type :=
  | VNone
  | VBool (b : bool)
  | VInt (n : Z)
  | VStr (s : string).

(** What a [raise] can raise.  [SystemExit], [KeyboardInterrupt] and
    [GeneratorExit] derive from [BaseException] without deriving from
    [Exception], so an [except Exception] clause does not catch them;
    [OtherException] stands for the other classes that derive from
    [Exception]. *)
Inductive Exception : Type :=
  | TypeError
  | ValueError
  | IndexError
  | AttributeError
  | SystemExit
  | KeyboardInterrupt
  | GeneratorExit
  | OtherException (code : nat).

(** [isinstance(err, Exception)] *)
Definition isinstance_Exception (err : Exception) : bool :=
  match err with
  | SystemExit | KeyboardInterrupt | GeneratorExit => false
  | _ => true
  end.

(** A computation that returns or raises. *)
Inductive Py (A : Type) : Type :=
  | Ok (a : A)
  | Raise (e : Exception).
Arguments Ok {A} a.
Arguments Raise {A} e.

Definition py_bind {A B} (m : Py A) (k : A -> Py B) : Py B :=
  match m with
  | Ok a => k a
  | Raise e => Raise e
  end.

(** [isinstance(v, int)] together with the integer the value stands for. *)
Definition as_int (v : PyVal) : option Z :=
  match v with
  | VBool b => Some (Z.b2z b)
  | VInt n => Some n
  | _ => None
  end.

(** [a == b] on payloads. *)
Definition py_eq (a b : PyVal) : bool :=
  match a, b with
  | VNone, VNone => true
  | VStr s, VStr t => bool_decide (s = t)
  | _, _ =>
      match as_int a, as_int b with
      | Some x, Some y => (x =? y)%Z
      | _, _ => false
      end
  end.

(** [a + b] on payloads: numbers add, strings concatenate, anything else is
    a [TypeError]. *)
Definition py_add (a b : PyVal) : Py PyVal :=
  match a, b with
  | VStr s, VStr t => Ok (VStr (s ++ t))
  | _, _ =>
      match as_int a, as_int b with
      | Some x, Some y => Ok (VInt (x + y))
      | _, _ => Raise TypeError
      end
  end.

Definition is_None (v : PyVal) : bool :=
  match v with VNone => true | _ => false end.

(** ** Schedules and rules

    [schedule.py] is not part of the sources at hand; rules and schedules
    carry the attributes that [room.py] reads from them. *)

(** A compiled expression ([types.CodeType]), used as a dictionary key. *)
Definition Expr : Type := nat.

(** Modelled from the spec: the [Rule], [SubScheduleRule] and [Schedule]
    classes of [schedule.py].  A rule has an optional expression, an optional
    literal value ([VNone] when absent) and, for a [SubScheduleRule], the
    nested schedule; a schedule is an ordered sequence of rules.  [rule_id]
    and [sched_id] stand for object identity. *)
Inductive Rule : Type :=
  | mkRule (rule_id : nat) (expr : option Expr) (value : PyVal)
           (sub_schedule : option Schedule)
with Schedule : Type :=
  | mkSchedule (sched_id : nat) (rules : list Rule).

Definition rule_id (r : Rule) : nat := let 'mkRule i _ _ _ := r in i.
Definition rule_expr (r : Rule) : option Expr := let 'mkRule _ e _ _ := r in e.
Definition rule_value (r : Rule) : PyVal := let 'mkRule _ _ v _ := r in v.
Definition rule_sub_schedule (r : Rule) : option Schedule :=
  let 'mkRule _ _ _ s := r in s.
Definition sched_id (s : Schedule) : nat := let 'mkSchedule i _ := s in i.
Definition sched_rules (s : Schedule) : list Rule :=
  let 'mkSchedule _ rs := s in rs.

(** Rules and schedules define no [__eq__]: [==] is object identity. *)
Definition rule_eq (a b : Rule) : bool := Nat.eqb (rule_id a) (rule_id b).
Definition schedule_eq (a b : Schedule) : bool :=
  Nat.eqb (sched_id a) (sched_id b).

(** [l1 == l2] on lists of rules. *)
Fixpoint rules_eq (l1 l2 : list Rule) : bool :=
  match l1, l2 with
  | [], [] => true
  | a :: l1', b :: l2' => rule_eq a b && rules_eq l1' l2'
  | _, _ => false
  end.

(** ** expression.py *)
Module expression.

(** Instances of the result classes.  [IncludeSchedule.__init__] stores its
    argument unchecked: the [schedule] attribute holds a schedule or, on the
    right, an object that is none. *)
Inductive ResultObj : Type :=
  | Result (value : PyVal)
  | Abort
  | Add (value : PyVal)
  | Break (levels : Z)
  | IncludeSchedule (schedule : Schedule + PyVal)
  | Skip.

(** The classes of the module, and [object]. *)
Inductive Cls : Type :=
  | objectT
  | AddibleMixinT
  | ResultBaseT
  | ResultT
  | AbortT
  | AddT
  | BreakT
  | IncludeScheduleT
  | SkipT.

#[export] Instance Cls_eq_dec : EqDecision Cls.
Proof. solve_decision. Defined.

(** The base classes, in the order of the [class] statement. *)
Definition bases (c : Cls) : list Cls :=
  match c with
  | objectT => []
  | AddibleMixinT => [objectT]
  | ResultBaseT => [objectT]
  | ResultT => [ResultBaseT; AddibleMixinT]
  | AbortT => [ResultBaseT]
  | AddT => [ResultBaseT; AddibleMixinT]
  | BreakT => [ResultBaseT]
  | IncludeScheduleT => [ResultBaseT]
  | SkipT => [ResultBaseT]
  end.

(** *** Method resolution order (C3 linearisation) *)

Definition in_tail (c : Cls) (seq : list Cls) : bool :=
  match seq with
  | [] => false
  | _ :: t => bool_decide (c ∈ t)
  end.

Definition good_head (seqs : list (list Cls)) (c : Cls) : bool :=
  forallb (fun s => negb (in_tail c s)) seqs.

Fixpoint first_good_head (seqs all : list (list Cls)) : option Cls :=
  match seqs with
  | [] => None
  | [] :: rest => first_good_head rest all
  | (h :: _) :: rest =>
      if good_head all h then Some h else first_good_head rest all
  end.

Definition drop_head (c : Cls) (seq : list Cls) : list Cls :=
  match seq with
  | h :: t => if bool_decide (h = c) then t else seq
  | [] => []
  end.

Definition nonempty (seq : list Cls) : bool :=
  match seq with [] => false | _ => true end.

Fixpoint c3_merge (fuel : nat) (seqs : list (list Cls)) : option (list Cls) :=
  match fuel with
  | O => None
  | S fuel' =>
      let seqs := List.filter nonempty seqs in
      match seqs with
      | [] => Some []
      | _ =>
          match first_good_head seqs seqs with
          | None => None
          | Some h => cons h <$> c3_merge fuel' (List.map (drop_head h) seqs)
          end
      end
  end.

Fixpoint linearise (fuel : nat) (c : Cls) : option (list Cls) :=
  match fuel with
  | O => None
  | S fuel' =>
      match mapM (linearise fuel') (bases c) with
      | None => None
      | Some ls => cons c <$> c3_merge 16 (ls ++ [bases c])
      end
  end.

(** [cls.__mro__] *)
Definition mro (c : Cls) : list Cls := default [] (linearise 4 c).

(** [type(obj)] *)
Definition type_of (r : ResultObj) : Cls :=
  match r with
  | Result _ => ResultT
  | Abort => AbortT
  | Add _ => AddT
  | Break _ => BreakT
  | IncludeSchedule _ => IncludeScheduleT
  | Skip => SkipT
  end.

(** [isinstance(obj, cls)] *)
Definition isinstance (r : ResultObj) (c : Cls) : bool :=
  bool_decide (c ∈ mro (type_of r)).

(** The [value] attribute, set by [AddibleMixin.__init__]. *)
Definition get_value (r : ResultObj) : option PyVal :=
  match r with
  | Result v | Add v => Some v
  | _ => None
  end.

(** [obj.value = v] *)
Definition set_value_attr (r : ResultObj) (v : PyVal) : ResultObj :=
  match r with
  | Result _ => Result v
  | Add _ => Add v
  | other => other
  end.

(** *** [__eq__] *)

(** [AddibleMixin.__eq__] *)
Definition AddibleMixin_eq (self other : ResultObj) : bool :=
  bool_decide (type_of self = type_of other) &&
  match get_value self, get_value other with
  | Some a, Some b => py_eq a b
  | _, _ => false
  end.

(** [ResultBase.__eq__] *)
Definition ResultBase_eq (self other : ResultObj) : bool :=
  bool_decide (type_of self = type_of other).

(** The classes that define [__eq__] in their own body. *)
Definition own_eq (c : Cls) : option (ResultObj -> ResultObj -> bool) :=
  match c with
  | AddibleMixinT => Some AddibleMixin_eq
  | ResultBaseT => Some ResultBase_eq
  | _ => None
  end.

(** Attribute lookup along the MRO. *)
Fixpoint lookup_method {M} (own : Cls -> option M) (order : list Cls) : option M :=
  match order with
  | [] => None
  | c :: rest =>
      match own c with
      | Some m => Some m
      | None => lookup_method own rest
      end
  end.

(** [a == b] on results: the first [__eq__] on the MRO of [type(a)].  None
    of the concrete classes derives from another one, so the reflected
    operand never takes priority. *)
Definition result_eq (a b : ResultObj) : bool :=
  match lookup_method own_eq (mro (type_of a)) with
  | Some m => m a b
  | None => false
  end.

(** *** [Add.__add__] *)

(** [cls(value)] for the classes whose constructor is
    [AddibleMixin.__init__]. *)
Definition new_addible (c : Cls) (value : PyVal) : Py ResultObj :=
  match c with
  | ResultT => Ok (Result value)
  | AddT => Ok (Add value)
  | _ => Raise TypeError
  end.

Definition Add_add (self other : ResultObj) : Py ResultObj :=
  if negb (isinstance other AddibleMixinT) then Raise TypeError
  else
    match get_value self, get_value other with
    | Some x, Some y =>
        py_bind (py_add x y) (new_addible (type_of other))
    | _, _ => Raise (OtherException 0)
    end.

Definition own_add (c : Cls) : option (ResultObj -> ResultObj -> Py ResultObj) :=
  match c with
  | AddT => Some Add_add
  | _ => None
  end.

(** [a + b] on results; a left operand without [__add__] is a [TypeError]
    (no class defines [__radd__]). *)
Definition result_add (a b : ResultObj) : Py ResultObj :=
  match lookup_method own_add (mro (type_of a)) with
  | Some m => m a b
  | None => Raise TypeError
  end.

(** *** [Break.__init__]

    The argument is any Python value.  [True] passes both tests and is the
    integer 1 in every use the program makes of [levels]. *)
Definition Break_init (levels : PyVal) : Py ResultObj :=
  match as_int levels with
  | None => Raise ValueError
  | Some n => if (n <? 1)%Z then Raise ValueError else Ok (Break n)
  end.

(** *** [eval_expr] *)

(** What [eval(expr, env)] hands back: an arbitrary Python object. *)
Inductive PyObj : Type :=
  | Plain (v : PyVal)
  | Res (r : ResultObj).

(** [eval_expr(expr, app, extra_env)]; [env] stands for [eval] in the
    environment built from the app and [extra_env]. *)
Definition eval_expr (env : Expr -> Py PyObj) (expr : Expr) : Py ResultObj :=
  match env expr with
  | Raise e => Raise e
  | Ok (Plain v) => Ok (Result v)
  | Ok (Res r) => Ok r
  end.

End expression.

(** ** room.py: schedule evaluation *)
Module room.
Import expression.

(** Modelled from the spec: [schedule.RulePath], an append-only sequence of
    rules recording one descent from a root schedule to a frontier rule,
    together with the root schedule it starts from. *)
Record RulePath : Type := mkRulePath {
  root_schedule : Schedule;
  path_rules : list Rule;
}.

(** [schedule.RulePath(sched)] *)
Definition new_path (sched : Schedule) : RulePath := mkRulePath sched [].

(** [path = path_prefix.copy(); path.add(rule)] *)
Definition path_add (path_prefix : RulePath) (rule : Rule) : RulePath :=
  mkRulePath (root_schedule path_prefix) (path_rules path_prefix ++ [rule]).

(** Modelled from the spec: [RulePath.rules_with_expr_or_value], the rules
    of the path that carry an expression or a literal, in root-to-frontier
    order. *)
Definition rules_with_expr_or_value (path : RulePath) : list Rule :=
  List.filter
    (fun r => bool_decide (is_Some (rule_expr r)) || negb (is_None (rule_value r)))
    (path_rules path).

(** What a scan of a path leaves in [_result], and what the expression cache
    stores: a result object (by address) or the exception that
    [Room.eval_expr] caught. *)
Inductive EvalOut : Type :=
  | Obj (addr : nat)
  | Exc (e : Exception).

(** The local variables of [eval_schedule] while its loop runs.  [heap] is
    the store of result objects; [evals] is the trace of evaluator
    invocations, in order. *)
Record Run : Type := mkRun {
  paths : list RulePath;
  path_idx : nat;
  result : option nat;
  expr_cache : gmap Expr EvalOut;
  heap : list ResultObj;
  evals : list Expr;
}.

(** How one pass through the loop body ends. *)
Inductive Flow : Type :=
  | Next (st : Run)
  | Return (r : option (PyVal * Rule)) (st : Run)
  | Uncaught (e : Exception) (st : Run).

(** [list.insert(i, x)] *)
Definition py_insert {A} (i : nat) (x : A) (l : list A) : list A :=
  take i l ++ x :: drop i l.

Section Evaluation.

(** Modelled from the spec: the validity predicate of a rule at the time
    [when] of the evaluation, which [Schedule.get_matching_rules] filters
    by, preserving the configured order. *)
Variable matches : Rule -> bool.

(** [eval(expr, env)] in the environment of the room. *)
Variable env : Expr -> Py PyObj.

(** [actor_type.validate_value]; [None] stands for a raised [ValueError]. *)
Variable validate_value : PyVal -> option PyVal.

Definition get_matching_rules (sched : Schedule) : list Rule :=
  List.filter matches (sched_rules sched).

(** [Room._validate_value] *)
Definition _validate_value (value : PyVal) : PyVal :=
  match validate_value value with
  | Some v => v
  | None => VNone
  end.

(** [Room.eval_expr], in an app that has its actor type: an exception
    that derives from [Exception] is caught and returned, any other leaves
    the method.  A result is a new object in the store. *)
Definition eval_expr (expr : Expr) (st : Run) : Py EvalOut * Run :=
  let evals' := evals st ++ [expr] in
  match expression.eval_expr env expr with
  | Ok r =>
      (Ok (Obj (length (heap st))),
       mkRun (paths st) (path_idx st) (result st) (expr_cache st)
             (heap st ++ [r]) evals')
  | Raise err =>
      (if isinstance_Exception err then Ok (Exc err) else Raise err,
       mkRun (paths st) (path_idx st) (result st) (expr_cache st)
             (heap st) evals')
  end.

(** The helper [insert_paths] of [eval_schedule]. *)
Fixpoint insert_paths (paths : list RulePath) (first_index : nat)
    (path_prefix : RulePath) (rules : list Rule) : list RulePath :=
  match rules with
  | [] => paths
  | rule :: rules' =>
      insert_paths (py_insert first_index (path_add path_prefix rule) paths)
                   (S first_index) path_prefix rules'
  end.

(** The [for rule in reversed(rules_with_expr_or_value)] loop; [rules] is
    the reversed list.  An exception that [Room.eval_expr] lets through ends
    the loop, before the cache is written. *)
Fixpoint scan (rules : list Rule) (st : Run) : Py (option EvalOut) * Run :=
  match rules with
  | [] => (Ok None, st)
  | rule :: rules' =>
      let '(_result, st') :=
        match rule_expr rule with
        | Some e =>
            match expr_cache st !! e with
            | Some cached => (Ok (Some cached), st)
            | None =>
                match eval_expr e st with
                | (Ok r, st1) =>
                    (Ok (Some r),
                     mkRun (paths st1) (path_idx st1) (result st1)
                           (<[e := r]> (expr_cache st1)) (heap st1) (evals st1))
                | (Raise err, st1) => (Raise err, st1)
                end
            end
        | None =>
            if negb (is_None (rule_value rule)) then
              (Ok (Some (Obj (length (heap st)))),
               mkRun (paths st) (path_idx st) (result st) (expr_cache st)
                     (heap st ++ [Result (rule_value rule)]) (evals st))
            else (Ok None, st)
        end in
      match _result with
      | Ok None => scan rules' st'
      | _ => (_result, st')
      end
  end.

(** The [while] loop of the [Break] branch: delete the paths at the cursor
    as long as they share the root schedule and the prefix. *)
Fixpoint break_loop (fuel : nat) (paths : list RulePath) (path_idx : nat)
    (path : RulePath) (prefix_size : nat) (prefix : list Rule) : list RulePath :=
  match fuel with
  | O => paths
  | S fuel' =>
      match paths !! path_idx with
      | Some p =>
          if schedule_eq (root_schedule p) (root_schedule path) &&
             rules_eq (take prefix_size (path_rules p)) prefix
          then break_loop fuel' (delete path_idx paths) path_idx path
                          prefix_size prefix
          else paths
      | None => paths
      end
  end.

(** What the loop of the [Break] branch leaves of the paths from the cursor
    on: the leading paths that share root schedule and prefix are gone. *)
Fixpoint skip_shared (path : RulePath) (prefix_size : nat) (prefix : list Rule)
    (rest : list RulePath) : list RulePath :=
  match rest with
  | [] => []
  | p :: rest' =>
      if schedule_eq (root_schedule p) (root_schedule path) &&
         rules_eq (take prefix_size (path_rules p)) prefix
      then skip_shared path prefix_size prefix rest'
      else rest
  end.

(** The [Break] branch.  Every pass of its loop deletes one path, so the
    length of the worklist bounds the number of passes. *)
Definition break_paths (paths : list RulePath) (path_idx : nat)
    (path : RulePath) (levels : Z) : list RulePath :=
  let prefix_size :=
    Z.to_nat (Z.max 0 (Z.of_nat (length (path_rules path)) - levels)) in
  let prefix := take prefix_size (path_rules path) in
  break_loop (length paths) paths path_idx path prefix_size prefix.

Definition with_paths (st : Run) (ps : list RulePath) : Run :=
  mkRun ps (path_idx st) (result st) (expr_cache st) (heap st) (evals st).

Definition with_heap (st : Run) (h : list ResultObj) : Run :=
  mkRun (paths st) (path_idx st) (result st) (expr_cache st) h (evals st).

Definition with_result (st : Run) (r : option nat) : Run :=
  mkRun (paths st) (path_idx st) r (expr_cache st) (heap st) (evals st).

(** [path_idx += 1] *)
Definition advance (st : Run) : Run :=
  mkRun (paths st) (S (path_idx st)) (result st) (expr_cache st) (heap st)
        (evals st).

(** The end of the addible branch: [if isinstance(result, Result): return]. *)
Definition check_final (last_rule : Rule) (st : Run) : Flow :=
  match result st with
  | Some b =>
      match heap st !! b with
      | Some res =>
          if isinstance res ResultT then
            match get_value res with
            | Some v => Return (Some (v, last_rule)) st
            | None => Uncaught (OtherException 0) st
            end
          else Next st
      | None => Uncaught (OtherException 0) st
      end
  | None => Next st
  end.

(** The addible branch, for the object at address [a]. *)
Definition fold_addible (last_rule : Rule) (a : nat) (obj : ResultObj)
    (st : Run) : Flow :=
  match get_value obj with
  | None => Uncaught (OtherException 0) st
  | Some v =>
      let value := _validate_value v in
      if is_None value then Next st
      else
        let st1 := with_heap st (<[a := set_value_attr obj value]> (heap st)) in
        match result st1 with
        | None => check_final last_rule (with_result st1 (Some a))
        | Some b =>
            match heap st1 !! b, heap st1 !! a with
            | Some acc, Some _result =>
                match result_add acc _result with
                | Ok sum =>
                    check_final last_rule
                      (with_result (with_heap st1 (heap st1 ++ [sum]))
                                   (Some (length (heap st1))))
                | Raise TypeError => Next st1
                | Raise err => Uncaught err st1
                end
            | _, _ => Uncaught (OtherException 0) st1
            end
        end
  end.

(** The [if]/[elif] chain after the scan. *)
Definition classify (path : RulePath) (last_rule : Rule)
    (_result : option EvalOut) (st : Run) : Flow :=
  match _result with
  | None => Next st
  | Some (Exc _) => Next st
  | Some (Obj a) =>
      match heap st !! a with
      | None => Uncaught (OtherException 0) st
      | Some obj =>
          if isinstance obj AddibleMixinT then fold_addible last_rule a obj st
          else if isinstance obj AbortT then Return None st
          else if isinstance obj BreakT then
            match obj with
            | Break levels =>
                Next (with_paths st
                        (break_paths (paths st) (path_idx st) path levels))
            | _ => Uncaught (OtherException 0) st
            end
          else if isinstance obj IncludeScheduleT then
            match obj with
            | IncludeSchedule (inl sched) =>
                Next (with_paths st
                        (insert_paths (paths st) (path_idx st) (new_path sched)
                                      (get_matching_rules sched)))
            | IncludeSchedule (inr _) => Uncaught AttributeError st
            | _ => Uncaught (OtherException 0) st
            end
          else Next st
      end
  end.

(** One pass through the body of [while path_idx < len(paths)]. *)
Definition loop_body (st : Run) : Flow :=
  match paths st !! path_idx st with
  | None => Uncaught IndexError st
  | Some path =>
      let st1 := advance st in
      match last (path_rules path) with
      | None => Uncaught IndexError st1
      | Some last_rule =>
          match rule_sub_schedule last_rule with
          | Some sub =>
              Next (with_paths st1
                      (insert_paths (paths st1) (path_idx st1) path
                                    (get_matching_rules sub)))
          | None =>
              match scan (reverse (rules_with_expr_or_value path)) st1 with
              | (Ok _result, st2) => classify path last_rule _result st2
              | (Raise err, st2) => Uncaught err st2
              end
          end
      end
  end.

(** The [while] loop.  An included schedule may include itself, so the loop
    need not end: [None] is a run that is still going when the fuel is
    spent.  The final locals are returned with the result. *)
Fixpoint while_loop (fuel : nat) (st : Run)
    : option (Py (option (PyVal * Rule)) * Run) :=
  match fuel with
  | O => None
  | S fuel' =>
      if bool_decide (path_idx st < length (paths st)) then
        match loop_body st with
        | Next st' => while_loop fuel' st'
        | Return r st' => Some (Ok r, st')
        | Uncaught e st' => Some (Raise e, st')
        end
      else Some (Ok None, st)
  end.

(** The locals after at most [n] passes of the loop, whether or not the loop
    has ended by then. *)
Fixpoint locals_after (n : nat) (st : Run) : Run :=
  match n with
  | O => st
  | S n' =>
      if bool_decide (path_idx st < length (paths st)) then
        match loop_body st with
        | Next st' => locals_after n' st'
        | Return _ st' => st'
        | Uncaught _ st' => st'
        end
      else st
  end.

(** The locals at loop entry. *)
Definition initial_run (sched : Schedule) : Run :=
  mkRun (insert_paths [] 0 (new_path sched) (get_matching_rules sched))
        0 None ∅ [] [].

(** [Room.eval_schedule(sched, when)], with its final locals. *)
Definition eval_schedule_run (fuel : nat) (sched : Schedule)
    : option (Py (option (PyVal * Rule)) * Run) :=
  while_loop fuel (initial_run sched).

Definition eval_schedule (fuel : nat) (sched : Schedule)
    : option (Py (option (PyVal * Rule))) :=
  fst <$> eval_schedule_run fuel sched.

End Evaluation.

(** ** room.py: the room and its timers *)

(** The attributes of a [Room] that its methods read and write.  Actors are
    named by their position; [reschedule_delay] is the configured number of
    minutes. *)
Record Room : Type := mkRoom {
  cfg_replicate_changes : bool;
  cfg_reschedule_delay : Z;
  actors : list nat;
  schedule : option Schedule;
  wanted_value : PyVal;
  scheduled_value : PyVal;
  reschedule_timer : option nat;
}.

(** What the room does to its collaborators: the timers of the app that are
    armed (handle and delay), the [set_value] calls received by the actors
    (actor, value, [force_resend]) and the states written to the sensor
    mirror, oldest first. *)
Record App : Type := mkApp {
  next_handle : nat;
  timers : list (nat * Z);
  sent : list (nat * PyVal * bool);
  sensor_writes : list string;
}.

Record State : Type := mkState {
  room : Room;
  app : App;
}.

(** Methods of the room run in a state monad; [None] is a call that does not
    come back because the evaluation of the schedule does not end. *)
Definition M (A : Type) : Type := State -> option (A * State).

#[export] Instance M_ret : MRet M := fun A a s => Some (a, s).
#[export] Instance M_bind : MBind M := fun A B f m s =>
  match m s with
  | Some (a, s') => f a s'
  | None => None
  end.

(** A computation that leaves the state alone, if it comes back at all. *)
Definition finished {A} (o : option A) : M A := fun s =>
  match o with
  | Some a => Some (a, s)
  | None => None
  end.

Definition get_room : M Room := fun s => Some (room s, s).
Definition put_room (r : Room) : M unit := fun s => Some (tt, mkState r (app s)).
Definition get_app : M App := fun s => Some (app s, s).
Definition put_app (a : App) : M unit := fun s => Some (tt, mkState (room s) a).

Definition set_wanted_value (v : PyVal) : M unit :=
  r ← get_room;
  put_room (mkRoom (cfg_replicate_changes r) (cfg_reschedule_delay r) (actors r)
                   (schedule r) v (scheduled_value r) (reschedule_timer r)).

Definition set_scheduled_value (v : PyVal) : M unit :=
  r ← get_room;
  put_room (mkRoom (cfg_replicate_changes r) (cfg_reschedule_delay r) (actors r)
                   (schedule r) (wanted_value r) v (reschedule_timer r)).

Definition set_reschedule_timer (t : option nat) : M unit :=
  r ← get_room;
  put_room (mkRoom (cfg_replicate_changes r) (cfg_reschedule_delay r) (actors r)
                   (schedule r) (wanted_value r) (scheduled_value r) t).

(** [app.cancel_timer(handle)] *)
Definition app_cancel_timer (handle : nat) : M unit :=
  a ← get_app;
  put_app (mkApp (next_handle a)
                 (List.filter (fun t => negb (Nat.eqb (fst t) handle)) (timers a))
                 (sent a) (sensor_writes a)).

(** [app.run_at(callback, now + delay)] *)
Definition app_run_at (delay : Z) : M nat :=
  a ← get_app;
  put_app (mkApp (S (next_handle a)) (timers a ++ [(next_handle a, delay)])
                 (sent a) (sensor_writes a));;
  mret (next_handle a).

(** [actor.set_value(value, force_resend=force_resend)]; its boolean result
    only selects a log message. *)
Definition actor_set_value (actor : nat) (value : PyVal) (force_resend : bool)
    : M unit :=
  a ← get_app;
  put_app (mkApp (next_handle a) (timers a)
                 (sent a ++ [(actor, value, force_resend)]) (sensor_writes a)).

(** [app.set_state(entity_id, state=state)] *)
Definition app_set_state (state : string) : M unit :=
  a ← get_app;
  put_app (mkApp (next_handle a) (timers a) (sent a)
                 (sensor_writes a ++ [state])).

(** [Room.cancel_reschedule_timer] *)
Definition cancel_reschedule_timer : M bool :=
  r ← get_room;
  match reschedule_timer r with
  | None => mret false
  | Some timer =>
      app_cancel_timer timer;;
      set_reschedule_timer None;;
      mret true
  end.

(** [Room.start_reschedule_timer(reschedule_delay, restart)] *)
Definition start_reschedule_timer (reschedule_delay : option Z) (restart : bool)
    : M bool :=
  r ← get_room;
  proceed ←
    match reschedule_timer r with
    | Some _ =>
        if restart then cancel_reschedule_timer;; mret true
        else mret false
    | None => mret true
    end;
  if proceed : bool then
    let delay := default (cfg_reschedule_delay r) reschedule_delay in
    handle ← app_run_at delay;
    set_reschedule_timer (Some handle);;
    mret true
  else mret false.

(** The [for actor in self.actors] loop of [set_value]. *)
Fixpoint send_to_actors (l : list nat) (value : PyVal) (force_resend : bool)
    : M unit :=
  match l with
  | [] => mret tt
  | actor :: l' =>
      actor_set_value actor value force_resend;;
      send_to_actors l' value force_resend
  end.

(** [Room.set_value(value, scheduled, force_resend)]; [scheduled] only
    selects a log message. *)
Definition set_value (value : PyVal) (force_resend : bool) : M unit :=
  set_wanted_value value;;
  r ← get_room;
  send_to_actors (actors r) value force_resend.

(** [Room.notify_value_changed(actor, value)] *)
Definition notify_value_changed (value : PyVal) : M unit :=
  r ← get_room;
  (if cfg_replicate_changes r && bool_decide (1 < length (actors r))
   then set_value value false
   else mret tt);;
  r ← get_room;
  if py_eq value (wanted_value r) then
    cancel_reschedule_timer;; mret tt
  else if negb (cfg_reschedule_delay r =? 0)%Z then
    start_reschedule_timer None true;; mret tt
  else mret tt.

Section Scheduling.

Variable matches : Rule -> bool.
Variable env : Expr -> Py PyObj.
Variable validate_value : PyVal -> option PyVal.

(** [actor_type.serialize_value]; [None] stands for a raised [ValueError]. *)
Variable serialize_value : PyVal -> option string.

(** The evaluation of the schedule gets [fuel] passes of its loop. *)
Variable fuel : nat.

(** [Room.get_scheduled_value]; an exception that [eval_schedule] lets
    through ends the call of the room's method, too. *)
Definition get_scheduled_value : M (Py (option (PyVal * Rule))) :=
  r ← get_room;
  match schedule r with
  | None => mret (Ok None)
  | Some sched =>
      finished (eval_schedule matches env validate_value fuel sched)
  end.

(** [Room.apply_schedule(send, force_resend)] *)
Definition apply_schedule (send force_resend : bool) : M (Py unit) :=
  r ← get_room;
  if bool_decide (is_Some (reschedule_timer r)) then mret (Ok tt)
  else
    res ← get_scheduled_value;
    match res with
    | Raise err => mret (Raise err)
    | Ok None => mret (Ok tt)
    | Ok (Some (value, _)) =>
        if py_eq value (scheduled_value r) && negb force_resend then mret (Ok tt)
        else
          set_scheduled_value value;;
          match serialize_value value with
          | Some state => app_set_state state
          | None => mret tt
          end;;
          if negb send then mret (Ok tt)
          else set_value value force_resend;; mret (Ok tt)
    end.

(** [Room._reschedule_timer_cb] *)
Definition _reschedule_timer_cb : M (Py unit) :=
  set_reschedule_timer None;;
  set_scheduled_value VNone;;
  apply_schedule true false.

(** [Room._schedule_timer_cb] *)
Definition _schedule_timer_cb : M (Py unit) :=
  apply_schedule true false.

(** [util.compile_expression], of a module that is not at hand: the code
    object for the source of an expression, or an exception. *)
Variable compile_expression : PyVal -> Py Expr.

(** A failed [assert]. *)
Definition AssertionError : Exception := OtherException 2.

(** The value that [set_value_manually] takes from the expression
    [expr_raw]: the value of an included schedule, the validated payload of a
    [Result], and [None] for everything else, the exception that
    [Room.eval_expr] caught included.  An exception that [Room.eval_expr]
    did not catch, and the one of an [IncludeSchedule] that holds no
    schedule, leave the method. *)
Definition eval_manual_expr (expr_raw : PyVal) : M (Py PyVal) :=
  match compile_expression expr_raw with
  | Raise err => mret (Raise err)
  | Ok expr =>
      match expression.eval_expr env expr with
      | Raise err =>
          if isinstance_Exception err then mret (Ok VNone)
          else mret (Raise err)
      | Ok result =>
          if isinstance result IncludeScheduleT then
            match result with
            | IncludeSchedule (inl sched) =>
                _result ← finished (eval_schedule matches env validate_value
                                                  fuel sched);
                mret (match _result with
                      | Raise err => Raise err
                      | Ok None => Ok VNone
                      | Ok (Some (v, _)) => Ok v
                      end)
            | IncludeSchedule (inr _) => mret (Raise AttributeError)
            | _ => mret (Raise (OtherException 0))
            end
          else if isinstance result ResultT then
            match get_value result with
            | Some v => mret (Ok (_validate_value validate_value v))
            | None => mret (Raise (OtherException 0))
            end
          else mret (Ok VNone)
      end
  end.

(** [Room.set_value_manually(expr_raw, value, force_resend,
    reschedule_delay)] *)
Definition set_value_manually (expr_raw value : PyVal) (force_resend : bool)
    (reschedule_delay : option Z) : M (Py unit) :=
  let checks := (is_None expr_raw, is_None value) in
  if negb ((fst checks || snd checks) && negb (fst checks && snd checks))
  then mret (Raise AssertionError)
  else
    value' ← (if negb (is_None expr_raw) then eval_manual_expr expr_raw
              else mret (Ok value));
    match value' with
    | Raise err => mret (Raise err)
    | Ok v =>
        if is_None v then mret (Ok tt)
        else
          set_value v force_resend;;
          start_reschedule_timer reschedule_delay true;;
          mret (Ok tt)
    end.

(** [Room.notify_set_value_event]: logs and hands over. *)
Definition notify_set_value_event (expr_raw value : PyVal)
    (force_resend : bool) (reschedule_delay : option Z) : M (Py unit) :=
  set_value_manually expr_raw value force_resend reschedule_delay.

End Scheduling.

End room.

(** ** actor/generic.py *)
Module generic.

(** [Generic.validate_value]: accepts any value. *)
Definition validate_value (value : PyVal) : option PyVal := Some value.

(** One entry of the [states] configuration, as [STATE_DEF_SCHEMA] leaves
    it. *)
Record StateDef : Type := mkStateDef {
  service : string;
  service_data : gmap string PyVal;
  include_entity_id : bool;
}.

(** The attributes of a [Generic] actor that its methods use: the entity it
    controls, its configuration ([state_attr], and [states] as the dictionary
    from state values to their definitions, in the order of its keys) and the
    wanted and the current value. *)
Record Generic : Type := mkGeneric {
  entity_id : string;
  state_attr : option string;
  states : list (PyVal * StateDef);
  wanted_value : PyVal;
  current_value : PyVal;
}.

(** [d.get(key)] on a dictionary with values as keys: the entry whose key
    equals [key]. *)
Fixpoint dict_get {V} (d : list (PyVal * V)) (key : PyVal) : option V :=
  match d with
  | [] => None
  | (k, v) :: d' => if py_eq k key then Some v else dict_get d' key
  end.

(** [Generic._get_state_cfg(state)] *)
Definition _get_state_cfg (self : Generic) (state : PyVal) : option StateDef :=
  match dict_get (states self) state with
  | Some cfg => Some cfg
  | None => dict_get (states self) (VStr "_other_")
  end.

(** [Generic.filter_set_value(value)] *)
Definition filter_set_value (self : Generic) (value : PyVal) : PyVal :=
  if bool_decide (is_Some (_get_state_cfg self value)) then value else VNone.

(** [d.setdefault(key, value)] *)
Definition setdefault (key : string) (value : PyVal) (d : gmap string PyVal)
    : gmap string PyVal :=
  match d !! key with
  | Some _ => d
  | None => <[key := value]> d
  end.

(** [Generic.do_send()], with the service call that it makes: subscripting
    the missing configuration of an unknown state is a [TypeError]. *)
Definition do_send (self : Generic) : Py (string * gmap string PyVal) :=
  match _get_state_cfg self (wanted_value self) with
  | None => Raise TypeError
  | Some cfg =>
      let data := service_data cfg in
      let data :=
        if include_entity_id cfg
        then setdefault "entity_id" (VStr (entity_id self)) data
        else data in
      Ok (service cfg, data)
  end.

(** [Generic.notify_state_changed(attrs)], with the value of the
    [value_changed] event that it triggers, if any. *)
Definition notify_state_changed (self : Generic) (attrs : gmap string PyVal)
    : Generic * option PyVal :=
  match state_attr self with
  | None => (self, None)
  | Some attr =>
      let state := default VNone (attrs !! attr) in
      if is_None state then (self, None)
      else if negb (py_eq state (current_value self)) then
        (mkGeneric (entity_id self) (state_attr self) (states self)
                   (wanted_value self) state,
         Some state)
      else (self, None)
  end.

End generic.

(** ** app.py *)
Module app.

(** A failed subscript of a dictionary. *)
Definition KeyError : Exception := OtherException 3.

(** [bool(v)] *)
Definition py_bool (v : PyVal) : bool :=
  match v with
  | VNone => false
  | VBool b => b
  | VInt n => negb (n =? 0)%Z
  | VStr s => match s with EmptyString => false | _ => true end
  end.

(** The attributes of the app that its event callbacks use: its name, the
    [expressions_from_events] setting, the rooms with their names, in order,
    and what the rooms have done to the collaborators they share. *)
Record SchedyApp : Type := mkSchedyApp {
  name : string;
  expressions_from_events : bool;
  rooms : list (string * room.Room);
  collab : room.App;
}.

(** [SchedyApp.get_room(room_name)]: the position of the room stands for
    the room object. *)
Fixpoint find_room (rooms : list (string * room.Room)) (room_name : PyVal)
    : option nat :=
  match rooms with
  | [] => None
  | (n, _) :: rooms' =>
      if py_eq (VStr n) room_name then Some 0
      else S <$> find_room rooms' room_name
  end.

Definition get_room (self : SchedyApp) (room_name : PyVal) : option nat :=
  find_room (rooms self) room_name.

(** [if key in data: data.setdefault(replacement, data[key])] *)
Definition replace_key (key replacement : string) (data : gmap string PyVal)
    : gmap string PyVal :=
  match data !! key with
  | Some v => generic.setdefault replacement v data
  | None => data
  end.

(** The [try] block of [_set_value_event_cb]: room name, expression, value
    and re-schedule delay of the event, or the exception raised. *)
Definition read_set_value_event (self : SchedyApp) (data : gmap string PyVal)
    : Py (PyVal * PyVal * PyVal * PyVal) :=
  match data !! "room_name" with
  | None => Raise KeyError
  | Some room_name =>
      let reschedule_delay := default VNone (data !! "reschedule_delay") in
      if negb (is_None reschedule_delay ||
               bool_decide (is_Some (as_int reschedule_delay)))
      then Raise TypeError
      else if match as_int reschedule_delay with
              | Some n => (n <? 0)%Z
              | None => false
              end
      then Raise ValueError
      else
        let data := replace_key "v" "value" data in
        let data := replace_key "x" "expression" data in
        if bool_decide (is_Some (data !! "expression")) &&
           bool_decide (is_Some (data !! "value"))
        then Raise ValueError
        else if bool_decide (is_Some (data !! "expression")) then
          if negb (expressions_from_events self) then Raise ValueError
          else Ok (room_name, default VNone (data !! "expression"), VNone,
                   reschedule_delay)
        else if bool_decide (is_Some (data !! "value")) then
          Ok (room_name, VNone, default VNone (data !! "value"),
              reschedule_delay)
        else Raise ValueError
  end.

Section Events.

Variable matches : Rule -> bool.

(** [eval] in the environment of the room with the given name. *)
Variable env : string -> Expr -> Py expression.PyObj.

Variable validate_value : PyVal -> option PyVal.
Variable fuel : nat.
Variable compile_expression : PyVal -> Py Expr.

(** A method of the room at position [i], run on the state of that room. *)
Definition in_room {A} (self : SchedyApp) (i : nat)
    (method : string -> room.M A) : option (Py A * SchedyApp) :=
  match rooms self !! i with
  | None => Some (Raise IndexError, self)
  | Some (n, r) =>
      match method n (room.mkState r (collab self)) with
      | None => None
      | Some (a, s') =>
          Some (Ok a,
                mkSchedyApp (name self) (expressions_from_events self)
                            (<[i := (n, room.room s')]> (rooms self))
                            (room.app s'))
      end
  end.

(** [SchedyApp._set_value_event_cb(event, data, kwargs)] *)
Definition _set_value_event_cb (data : gmap string PyVal) (self : SchedyApp)
    : option (Py unit * SchedyApp) :=
  let app_name := default (VStr (name self)) (data !! "app_name") in
  if negb (py_eq app_name (VStr (name self))) then Some (Ok tt, self)
  else
    match read_set_value_event self data with
    | Raise _ => Some (Ok tt, self)
    | Ok (room_name, expr, value, reschedule_delay) =>
        match get_room self room_name with
        | None => Some (Ok tt, self)
        | Some i =>
            match in_room self i
                    (fun n =>
                       room.notify_set_value_event matches (env n)
                         validate_value fuel compile_expression expr value
                         (py_bool (default VNone (data !! "force_resend")))
                         (as_int reschedule_delay)) with
            | None => None
            | Some (Ok res, self') => Some (res, self')
            | Some (Raise err, self') => Some (Raise err, self')
            end
        end
    end.

End Events.

End app.

(** * Vocabulary of the properties *)

Import expression.
Import room.

(** Equality as the specification words it: variant and payload. *)
Definition spec_result_eq (a b : ResultObj) : bool :=
  match a, b with
  | Result x, Result y => py_eq x y
  | Add x, Add y => py_eq x y
  | Break m, Break n => (m =? n)%Z
  | Abort, Abort => true
  | Skip, Skip => true
  | IncludeSchedule _, IncludeSchedule _ => true
  | _, _ => false
  end.

(** The locals that a flow carries. *)
Definition flow_run (f : Flow) : Run :=
  match f with
  | Next st => st
  | Return _ st => st
  | Uncaught _ st => st
  end.

(** The expression cache covers every evaluator invocation, and no
    expression was evaluated twice. *)
Definition memo_inv (st : Run) : Prop :=
  NoDup (evals st) /\
  forall e, e ∈ evals st -> is_Some (expr_cache st !! e).

(** The store [h'] holds every object of the store [h] at its address, as it
    was apart from its [value] attribute, which may have been overwritten. *)
Definition keeps_objects (h h' : list ResultObj) : Prop :=
  forall a obj, h !! a = Some obj ->
    exists v, h' !! a = Some (set_value_attr obj v).

(** What the cache holds for an expression is what the one evaluation of
    that expression gave: the exception that [Room.eval_expr] caught, or the
    address of the result object, whose [value] attribute the validation may
    have overwritten since; no two expressions share an object. *)
Definition cache_tied (env : Expr -> Py PyObj) (st : Run) : Prop :=
  (forall e c, expr_cache st !! e = Some c ->
     e ∈ evals st /\
     match c with
     | Obj a =>
         exists r v, expression.eval_expr env e = Ok r /\
                     heap st !! a = Some (set_value_attr r v)
     | Exc err =>
         expression.eval_expr env e = Raise err /\
         isinstance_Exception err = true
     end) /\
  (forall e e' a, expr_cache st !! e = Some (Obj a) ->
     expr_cache st !! e' = Some (Obj a) -> e = e').

(** The pass of the loop that starts in [st] takes [path] from the worklist,
    whose frontier [last_rule] is no sub-schedule rule, and the scan of the
    path gives [_result] and the locals [st2]. *)
Definition scans_to (env : Expr -> Py PyObj) (st : Run) (path : RulePath)
    (last_rule : Rule) (_result : option EvalOut) (st2 : Run) : Prop :=
  paths st !! path_idx st = Some path /\
  last (path_rules path) = Some last_rule /\
  rule_sub_schedule last_rule = None /\
  scan env (reverse (rules_with_expr_or_value path)) (advance st)
    = (Ok _result, st2).

(** ** Example schedules, evaluators and rooms *)
Module examples.

(** Every rule is valid at the time of the evaluation. *)
Definition always (r : Rule) : bool := true.

(** A serializer that rejects every value. *)
Definition no_mirror (v : PyVal) : option string := None.

(** A sub-schedule [B] with the rules [C], [D] inside a sub-schedule [A]
    that goes on with [E]; [C] has the expression 0, [D] and [E] have the
    literals 1 and 2. *)
Definition rule_C : Rule := mkRule 3 (Some 0) VNone None.
Definition rule_D : Rule := mkRule 4 None (VInt 1) None.
Definition rule_B : Rule := mkRule 2 None VNone (Some (mkSchedule 12 [rule_C; rule_D])).
Definition rule_E : Rule := mkRule 5 None (VInt 2) None.
Definition rule_A : Rule := mkRule 1 None VNone (Some (mkSchedule 11 [rule_B; rule_E])).
Definition nested : Schedule := mkSchedule 10 [rule_A].

Definition path_A : RulePath := mkRulePath nested [rule_A].
Definition path_AB : RulePath := mkRulePath nested [rule_A; rule_B].
Definition path_ABC : RulePath := mkRulePath nested [rule_A; rule_B; rule_C].
Definition path_ABD : RulePath := mkRulePath nested [rule_A; rule_B; rule_D].
Definition path_AE : RulePath := mkRulePath nested [rule_A; rule_E].

(** Every expression evaluates to [Break(n)]. *)
Definition env_break (n : Z) (e : Expr) : Py PyObj := Ok (Res (Break n)).

(** A frontier rule [F] without expression or literal below the rules [R1]
    (outermost, expression 1) and [R2] (innermost, expression 2); and a
    schedule that has the rule [P] with the expression 0 in front. *)
Definition rule_F : Rule := mkRule 23 None VNone None.
Definition rule_R2 : Rule := mkRule 22 (Some 2) VNone (Some (mkSchedule 32 [rule_F])).
Definition rule_R1 : Rule := mkRule 21 (Some 1) VNone (Some (mkSchedule 31 [rule_R2])).
Definition overrides : Schedule := mkSchedule 30 [rule_R1].
Definition rule_P : Rule := mkRule 20 (Some 0) VNone None.
Definition accumulated : Schedule := mkSchedule 33 [rule_P; rule_R1].
Definition path_R1R2F : RulePath := mkRulePath overrides [rule_R1; rule_R2; rule_F].

(** Expression 0 is [Add(2)], expression 1 is the plain value 7, expression
    2 is [r2], expression 3 is [Add] of a string, expression 4 is the plain
    value 3; any other expression raises. *)
Definition env_override (r2 : ResultObj) (e : Expr) : Py PyObj :=
  match e with
  | 0 => Ok (Res (Add (VInt 2)))
  | 1 => Ok (Plain (VInt 7))
  | 2 => Ok (Res r2)
  | 3 => Ok (Res (Add (VStr "a")))
  | 4 => Ok (Plain (VInt 3))
  | _ => Raise (OtherException 1)
  end.

(** The locals of the evaluation of [overrides] when the path
    [[R1, R2, F]] is at the cursor. *)
Definition at_frontier (r2 : ResultObj) : Run :=
  locals_after always (env_override r2) generic.validate_value 2
    (initial_run always overrides).

(** Three rules at one level: [Add(2)], [Add] of a string, the value 3. *)
Definition mixed : Schedule :=
  mkSchedule 50 [mkRule 51 (Some 0) VNone None; mkRule 52 (Some 3) VNone None;
                 mkRule 53 (Some 4) VNone None].

(** The locals of the evaluation of [mixed] when its second rule is at the
    cursor. *)
Definition at_mismatch : Run :=
  locals_after always (env_override Skip) generic.validate_value 1
    (initial_run always mixed).

(** A room with two actors that wants 20, with a delay of 10 minutes and no
    timer. *)
Definition two_actor_room (replicate : bool) : State :=
  mkState (mkRoom replicate 10 [0; 1] None (VInt 20) (VInt 20) None)
          (mkApp 0 [] [] []).

(** A room with one actor whose schedule always gives 20, before anything
    was scheduled. *)
Definition constant : Schedule := mkSchedule 40 [mkRule 41 None (VInt 20) None].
Definition fresh_room : State :=
  mkState (mkRoom false 10 [0] (Some constant) VNone VNone None)
          (mkApp 0 [] [] []).

(** A room whose schedule is [overrides]. *)
Definition overrides_room : State :=
  mkState (mkRoom false 10 [0] (Some overrides) (VInt 20) (VInt 20) None)
          (mkApp 0 [] [(0, VInt 20, false)] []).

(** The room applies its schedule, an actor then reports 22. *)
Definition schedule_then_drift : M unit :=
  room.apply_schedule always (env_override Skip) generic.validate_value
    no_mirror 10 true false;;
  notify_value_changed (VInt 22).

End examples.

(** ** Invariants and measures of the evaluation loop *)

(** The worklist holds only paths with at least one rule, all of whose rules
    are valid at the time of the evaluation. *)
Definition paths_ok (matches : Rule -> bool) (st : Run) : Prop :=
  Forall (fun p => path_rules p <> [] /\
                   Forall (fun r => matches r = true) (path_rules p))
         (paths st).

(** Every object that the cache refers to is in the store. *)
Definition cache_ok (st : Run) : Prop :=
  forall e a, expr_cache st !! e = Some (Obj a) -> a < length (heap st).

(** A pending accumulator is an [Add] object of the store. *)
Definition acc_ok (st : Run) : Prop :=
  forall b, result st = Some b -> exists x, heap st !! b = Some (Add x).

Definition run_ok (matches : Rule -> bool) (st : Run) : Prop :=
  paths_ok matches st /\ cache_ok st /\ acc_ok st.

(** What a run may return: nothing, or a value that is not [None] with a
    rule that is valid and has no sub-schedule. *)
Definition return_ok (matches : Rule -> bool) (r : option (PyVal * Rule)) : Prop :=
  match r with
  | None => True
  | Some (v, rule) =>
      v <> VNone /\ matches rule = true /\ rule_sub_schedule rule = None
  end.

Definition is_include (r : ResultObj) : bool :=
  match r with IncludeSchedule _ => true | _ => false end.

(** No expression evaluates to an [IncludeSchedule]. *)
Definition never_includes (env : Expr -> Py PyObj) : Prop :=
  forall e sched, env e <> Ok (Res (IncludeSchedule sched)).

(** Every [IncludeSchedule] object of the store is the result of an
    expression. *)
Definition includes_ok (env : Expr -> Py PyObj) (h : list ResultObj) : Prop :=
  Forall (fun o => is_include o = true -> exists e, env e = Ok (Res o)) h.

(** The exceptions that [eval_schedule] lets through: one that an
    expression raised and that does not derive from [Exception], and the
    [AttributeError] for an [IncludeSchedule], given by an expression, that
    holds no schedule. *)
Definition escapes (env : Expr -> Py PyObj) (err : Exception) : Prop :=
  (exists e, env e = Raise err /\ isinstance_Exception err = false) \/
  (err = AttributeError /\
   exists e other, env e = Ok (Res (IncludeSchedule (inr other)))).

(** Every exception that an expression raises derives from [Exception]. *)
Definition raises_exceptions_only (env : Expr -> Py PyObj) : Prop :=
  forall e err, env e = Raise err -> isinstance_Exception err = true.

(** The number of paths that a rule stands for: itself and, below a
    sub-schedule rule, the valid rules of the nested schedule. *)
Fixpoint rule_weight (matches : Rule -> bool) (r : Rule) : nat :=
  match r with
  | mkRule _ _ _ sub =>
      S (match sub with
         | Some (mkSchedule _ rs) =>
             (fix sum (l : list Rule) : nat :=
                match l with
                | [] => 0
                | x :: l' =>
                    (if matches x then rule_weight matches x else 0) + sum l'
                end) rs
         | None => 0
         end)
  end.

Definition rules_weight (matches : Rule -> bool) (l : list Rule) : nat :=
  list_sum (List.map (rule_weight matches) l).

Definition path_weight (matches : Rule -> bool) (p : RulePath) : nat :=
  match last (path_rules p) with
  | Some r => rule_weight matches r
  | None => 0
  end.

(** The paths that the loop still has to visit, counted with the paths that
    they will expand to. *)
Definition work (matches : Rule -> bool) (st : Run) : nat :=
  list_sum (List.map (path_weight matches) (drop (path_idx st) (paths st))).

(** What a pass of the loop may end with: the loop goes on in a consistent
    state, with the cursor where [i] says and, when no schedule is included,
    no more work than [w]; or the run returns what [return_ok] allows; or an
    exception of [escapes] ends it. *)
Definition flow_ok (matches : Rule -> bool) (env : Expr -> Py PyObj)
    (i w : nat) (f : Flow) : Prop :=
  match f with
  | Next st' =>
      run_ok matches st' /\ includes_ok env (heap st') /\ path_idx st' = i /\
      (never_includes env -> work matches st' <= w)
  | Return r _ => return_ok matches r
  | Uncaught err _ => escapes env err
  end.

(** Every expression evaluates to [Skip] or raises an exception that
    derives from [Exception]. *)
Definition quiet (env : Expr -> Py PyObj) : Prop :=
  forall e, env e = Ok (Res Skip) \/
            exists err, env e = Raise err /\ isinstance_Exception err = true.

(** No rule that is valid carries a literal value. *)
Definition no_literals (matches : Rule -> bool) : Prop :=
  forall r, matches r = true -> rule_value r = VNone.

(** The store holds [Skip] objects only and no accumulator is pending. *)
Definition silent (st : Run) : Prop :=
  Forall (fun o => o = Skip) (heap st) /\ result st = None.

(** ** Timers and calls of the room *)

(** The app has armed exactly the timer that the room records, if any, and
    its handle is one that the app has given out. *)
Definition one_timer (s : State) : Prop :=
  match reschedule_timer (room s) with
  | Some h => (exists d, timers (app s) = [(h, d)]) /\ h < next_handle (app s)
  | None => timers (app s) = []
  end.

(** The timer, the armed timers and the next handle, which only
    [cancel_reschedule_timer] and [start_reschedule_timer] touch. *)
Definition same_timers (s s' : State) : Prop :=
  reschedule_timer (room s') = reschedule_timer (room s) /\
  timers (app s') = timers (app s) /\
  next_handle (app s') = next_handle (app s).

(** The calls that timers and events make on a room while no re-schedule
    timer fires. *)
Inductive Call : Type :=
  | CallCancel
  | CallStart (reschedule_delay : option Z) (restart : bool)
  | CallSetValue (value : PyVal) (force_resend : bool)
  | CallNotify (value : PyVal)
  | CallApply (send force_resend : bool)
  | CallManual (expr_raw value : PyVal) (force_resend : bool)
               (reschedule_delay : option Z).

(** The state after a call, when the call comes back. *)
Definition run_call (matches : Rule -> bool) (env : Expr -> Py PyObj)
    (validate_value : PyVal -> option PyVal)
    (serialize_value : PyVal -> option string) (fuel : nat)
    (compile_expression : PyVal -> Py Expr) (c : Call) (s : State)
    : option State :=
  match c with
  | CallCancel => snd <$> cancel_reschedule_timer s
  | CallStart d restart => snd <$> start_reschedule_timer d restart s
  | CallSetValue v force => snd <$> room.set_value v force s
  | CallNotify v => snd <$> notify_value_changed v s
  | CallApply send force =>
      snd <$> room.apply_schedule matches env validate_value serialize_value
                fuel send force s
  | CallManual e v force d =>
      snd <$> room.set_value_manually matches env validate_value fuel
                compile_expression e v force d s
  end.

Fixpoint run_calls (matches : Rule -> bool) (env : Expr -> Py PyObj)
    (validate_value : PyVal -> option PyVal)
    (serialize_value : PyVal -> option string) (fuel : nat)
    (compile_expression : PyVal -> Py Expr) (cs : list Call) (s : State)
    : option State :=
  match cs with
  | [] => Some s
  | c :: cs' =>
      match run_call matches env validate_value serialize_value fuel
                     compile_expression c s with
      | Some s' =>
          run_calls matches env validate_value serialize_value fuel
                    compile_expression cs' s'
      | None => None
      end
  end.

(** ** Events *)

(** The value of a [schedy_set_value] event: the entry [value] or, without
    it, the entry [v]; and its expression likewise. *)
Definition event_value (data : gmap string PyVal) : option PyVal :=
  match data !! "value" with
  | Some v => Some v
  | None => data !! "v"
  end.

Definition event_expression (data : gmap string PyVal) : option PyVal :=
  match data !! "expression" with
  | Some v => Some v
  | None => data !! "x"
  end.

(** ** More example schedules, actors and events *)
Module more_examples.

Import examples.

(** A sub-schedule rule with the literal 18 around a rule that has nothing
    of its own. *)
Definition bare : Rule := mkRule 82 None VNone None.
Definition holder : Rule := mkRule 81 None (VInt 18) (Some (mkSchedule 83 [bare])).
Definition defaulted : Schedule := mkSchedule 80 [holder].

(** Two rules at one level: [Add(2)] and the plain value 3. *)
Definition summed : Schedule :=
  mkSchedule 60 [mkRule 61 (Some 0) VNone None; mkRule 62 (Some 4) VNone None].

(** A schedule whose rule includes the schedule. *)
Definition looping : Schedule := mkSchedule 70 [mkRule 71 (Some 0) VNone None].
Definition env_loop (e : Expr) : Py PyObj :=
  Ok (Res (IncludeSchedule (inl looping))).

(** Expression 0 raises [SystemExit], expression 1 gives an
    [IncludeSchedule] that holds [None], any other raises a [ValueError]; and
    a schedule whose rule has the expression 1. *)
Definition env_exit (e : Expr) : Py PyObj :=
  match e with
  | 0 => Raise SystemExit
  | 1 => Ok (Res (IncludeSchedule (inr VNone)))
  | _ => Raise ValueError
  end.
Definition misincluding : Schedule :=
  mkSchedule 72 [mkRule 73 (Some 1) VNone None].

(** Every expression skips; the rules without literal are the valid ones. *)
Definition env_skip (e : Expr) : Py PyObj := Ok (Res Skip).
Definition without_literal (r : Rule) : bool := is_None (rule_value r).

(** Every source compiles to the expression 0, to the expression 4, or to
    the expression 9. *)
Definition compile_0 (source : PyVal) : Py Expr := Ok 0.
Definition compile_4 (source : PyVal) : Py Expr := Ok 4.
Definition compile_9 (source : PyVal) : Py Expr := Ok 9.

(** The room of [fresh_room] with a timer running. *)
Definition waiting_room : State :=
  mkState (mkRoom false 10 [0] (Some constant) (VInt 22) (VInt 20) (Some 0))
          (mkApp 1 [(0, 10%Z)] [(0, VInt 20, false)] []).

(** A switch: the states [on] and [off] of [actor/switch.py], the second
    with an entity of its own in the service data. *)
Definition turn_on : generic.StateDef :=
  generic.mkStateDef "homeassistant/turn_on" ∅ true.
Definition turn_off : generic.StateDef :=
  generic.mkStateDef "homeassistant/turn_off"
    (<["entity_id" := VStr "switch.other"]> ∅) true.
Definition lamp : generic.Generic :=
  generic.mkGeneric "switch.lamp" (Some "state"%string)
    [(VStr "on", turn_on); (VStr "off", turn_off)] (VStr "off") (VStr "off").

(** An app with two rooms. *)
Definition house : app.SchedyApp :=
  app.mkSchedyApp "schedy" false
    [("living"%string, room fresh_room); ("bath"%string, room (two_actor_room false))]
    (mkApp 0 [] [] []).
Definition env_house (room_name : string) : Expr -> Py PyObj := env_override Skip.

(** Events: a value for the bath, given as [v]; the same with an expression
    besides; and the value [None] for the bath. *)
Definition event_v : gmap string PyVal :=
  <["room_name" := VStr "bath"]> (<["v" := VInt 21]> ∅).
Definition event_both : gmap string PyVal :=
  <["x" := VStr "Skip()"]> event_v.
Definition event_none : gmap string PyVal :=
  <["room_name" := VStr "bath"]> (<["value" := VNone]> ∅).

End more_examples.

(** * Properties *)

(** ** The class hierarchy *)

Example mro_Result :
  expression.mro expression.ResultT =
  [expression.ResultT; expression.ResultBaseT; expression.AddibleMixinT;
   expression.objectT].
Proof. reflexivity. Qed.

Example mro_Break :
  expression.mro expression.BreakT =
  [expression.BreakT; expression.ResultBaseT; expression.objectT].
Proof. reflexivity. Qed.

Lemma isinstance_AddibleMixin (r : ResultObj) :
  isinstance r AddibleMixinT =
  match r with Result _ | Add _ => true | _ => false end.
Proof. destruct r; reflexivity. Qed.

Lemma isinstance_Result (r : ResultObj) :
  isinstance r ResultT = match r with Result _ => true | _ => false end.
Proof. destruct r; reflexivity. Qed.

Lemma isinstance_Abort (r : ResultObj) :
  isinstance r AbortT = match r with Abort => true | _ => false end.
Proof. destruct r; reflexivity. Qed.

Lemma isinstance_Break (r : ResultObj) :
  isinstance r BreakT = match r with Break _ => true | _ => false end.
Proof. destruct r; reflexivity. Qed.

Lemma isinstance_IncludeSchedule (r : ResultObj) :
  isinstance r IncludeScheduleT =
  match r with IncludeSchedule _ => true | _ => false end.
Proof. destruct r; reflexivity. Qed.

(** Every result class finds [ResultBase.__eq__] first: in [Result] and
    [Add], [ResultBase] precedes [AddibleMixin] on the MRO. *)
Lemma result_eq_is_ResultBase_eq (a b : ResultObj) :
  result_eq a b = ResultBase_eq a b.
Proof. destruct a; reflexivity. Qed.

Lemma result_add_Add (x : PyVal) (r : ResultObj) :
  result_add (Add x) r = Add_add (Add x) r.
Proof. reflexivity. Qed.

Lemma py_eq_refl (v : PyVal) : py_eq v v = true.
Proof.
  destruct v as [|b|n|s]; simpl; try reflexivity.
  - apply Z.eqb_refl.
  - apply Z.eqb_refl.
  - apply bool_decide_eq_true_2. reflexivity.
Qed.

(** ** Result algebra *)

(** C4, as stated, fails: [Break(1) == Break(2)] holds in the program,
    because [Break] inherits [ResultBase.__eq__], which compares the
    classes only, whereas variant-and-payload equality tells them apart. *)
Lemma result_eq_ignores_break_levels :
  result_eq (Break 1) (Break 2) = true /\
  spec_result_eq (Break 1) (Break 2) = false.
Proof. split; reflexivity. Qed.

(** C4, amended: equality on results compares the variant.  Results of
    different variants are never equal, and for the variants that are not
    addible ([Abort], [Break], [IncludeSchedule], [Skip]) two results are
    equal exactly when they are of the same variant, whatever they carry. *)
Theorem result_eq_compares_variant (a b : ResultObj) :
  isinstance a AddibleMixinT = false \/ type_of a <> type_of b ->
  result_eq a b = bool_decide (type_of a = type_of b).
Proof.
  intros _. rewrite result_eq_is_ResultBase_eq. reflexivity.
Qed.

Lemma result_eq_compares_variant_witness :
  result_eq (Break 1) (Break 2) = true /\ result_eq Skip Abort = false.
Proof.
  split.
  - rewrite (result_eq_compares_variant (Break 1) (Break 2)).
    + reflexivity.
    + left. reflexivity.
  - rewrite (result_eq_compares_variant Skip Abort).
    + reflexivity.
    + right. discriminate.
Defined.

(** C9: [Break(levels)] is accepted exactly when [levels] is an integer that
    is at least 1, and then stores it; any other argument (an integer below
    1, or a value that is not an integer) raises [ValueError] in the
    constructor, so that every [Break] that exists carries a count of at
    least 1. *)
Theorem Break_init_checks_levels (levels : PyVal) :
  (exists n, as_int levels = Some n /\ (1 <= n)%Z /\
             Break_init levels = Ok (Break n)) \/
  ((as_int levels = None \/ exists n, as_int levels = Some n /\ (n < 1)%Z) /\
   Break_init levels = Raise ValueError).
Proof.
  unfold Break_init. destruct (as_int levels) as [n|] eqn:Hint.
  - destruct (Z.ltb_spec n 1) as [Hlt|Hge].
    + right. split; [right; exists n; split; [reflexivity | exact Hlt] | reflexivity].
    + left. exists n. split; [reflexivity|]. split; [exact Hge | reflexivity].
  - right. split; [left; reflexivity | reflexivity].
Qed.

Lemma Break_init_checks_levels_witness :
  Break_init (VInt 3) = Ok (Break 3) /\
  Break_init (VInt 0) = Raise ValueError /\
  Break_init (VStr "2") = Raise ValueError.
Proof.
  split; [|split].
  - destruct (Break_init_checks_levels (VInt 3))
      as [(n & Hn & _ & H)|[[Hn|(n & Hn & Hlt)] _]].
    + injection Hn as <-. exact H.
    + discriminate Hn.
    + injection Hn as <-. lia.
  - destruct (Break_init_checks_levels (VInt 0)) as [(n & Hn & Hle & _)|[_ H]].
    + injection Hn as <-. lia.
    + exact H.
  - destruct (Break_init_checks_levels (VStr "2")) as [(n & Hn & _)|[_ H]].
    + discriminate Hn.
    + exact H.
Defined.

(** C10: when [eval] hands back a value that is not a result object,
    [eval_expr] wraps it into [Result(value)]; [Room.eval_expr] then returns
    that new object, so that a scan which evaluates the expression stops at
    its rule with this result, also for the bare value [None]. *)
Theorem eval_expr_wraps_plain_values (env : Expr -> Py PyObj) (expr : Expr) (v : PyVal) (st : room.Run)
    (rule : Rule) (rest : list Rule) :
  env expr = Ok (Plain v) ->
  rule_expr rule = Some expr ->
  room.expr_cache st !! expr = None ->
  expression.eval_expr env expr = Ok (Result v) /\
  exists st',
    room.scan env (rule :: rest) st
      = (Ok (Some (room.Obj (length (room.heap st)))), st') /\
    room.heap st' !! length (room.heap st) = Some (Result v).
Proof.
  intros Henv Hrule Hcache.
  assert (Heval : expression.eval_expr env expr = Ok (Result v)).
  { unfold expression.eval_expr. rewrite Henv. reflexivity. }
  split; [exact Heval|].
  simpl. rewrite Hrule, Hcache. unfold room.eval_expr. rewrite Heval.
  eexists. split; [reflexivity|]. simpl.
  rewrite lookup_app_r by lia. rewrite Nat.sub_diag. reflexivity.
Qed.

(** ** Schedule evaluation *)

Section EvaluationFacts.

Set Default Proof Using "Type".

Variable matches : Rule -> bool.
Variable env : Expr -> Py PyObj.
Variable validate_value : PyVal -> option PyVal.

(** *** The scan of one path *)

(** A scan stops at the first rule that carries an expression. *)
Lemma scan_stops_at_expr (rule : Rule) (rest : list Rule) (e : Expr) (st : Run) :
  rule_expr rule = Some e ->
  scan env (rule :: rest) st = scan env [rule] st.
Proof.
  intros He. simpl. rewrite He.
  destruct (expr_cache st !! e) as [c|]; [reflexivity|].
  destruct (room.eval_expr env e st) as [[r|err] st1]; reflexivity.
Qed.

Lemma scan_cache_hit (rule : Rule) (rest : list Rule) (e : Expr) (c : EvalOut)
    (st : Run) :
  rule_expr rule = Some e ->
  expr_cache st !! e = Some c ->
  scan env (rule :: rest) st = (Ok (Some c), st).
Proof. intros He Hc. simpl. rewrite He, Hc. reflexivity. Qed.

(** The three ways in which [Room.eval_expr] ends. *)
Lemma eval_expr_cases (e : Expr) (st : Run) :
  (exists r,
     expression.eval_expr env e = Ok r /\
     room.eval_expr env e st =
       (Ok (Obj (length (heap st))),
        mkRun (paths st) (path_idx st) (result st) (expr_cache st)
              (heap st ++ [r]) (evals st ++ [e]))) \/
  (exists err,
     expression.eval_expr env e = Raise err /\
     isinstance_Exception err = true /\
     room.eval_expr env e st =
       (Ok (Exc err),
        mkRun (paths st) (path_idx st) (result st) (expr_cache st)
              (heap st) (evals st ++ [e]))) \/
  (exists err,
     expression.eval_expr env e = Raise err /\
     isinstance_Exception err = false /\
     room.eval_expr env e st =
       (Raise err,
        mkRun (paths st) (path_idx st) (result st) (expr_cache st)
              (heap st) (evals st ++ [e]))).
Proof.
  unfold room.eval_expr. destruct (expression.eval_expr env e) as [r|err].
  - left. eauto.
  - destruct (isinstance_Exception err) eqn:Hex; [right; left | right; right];
      eauto.
Qed.

Lemma eval_expr_frame (e : Expr) (st : Run) :
  let st' := snd (room.eval_expr env e st) in
  paths st' = paths st /\ path_idx st' = path_idx st /\
  result st' = result st /\ expr_cache st' = expr_cache st /\
  evals st' = evals st ++ [e].
Proof.
  unfold room.eval_expr. destruct (expression.eval_expr env e); simpl; auto.
Qed.

(** A scan leaves the worklist, the cursor and the accumulator alone. *)
Lemma scan_frame (rules : list Rule) (st : Run) :
  let st' := snd (scan env rules st) in
  paths st' = paths st /\ path_idx st' = path_idx st /\ result st' = result st.
Proof.
  revert st. induction rules as [|rule rules IH]; intros st; simpl; [auto|].
  destruct (rule_expr rule) as [e|].
  - destruct (expr_cache st !! e) as [c|]; simpl; [auto|].
    destruct (room.eval_expr env e st) as [r st1] eqn:Hev.
    pose proof (eval_expr_frame e st) as Hf. rewrite Hev in Hf. simpl in Hf.
    destruct Hf as (H1 & H2 & H3 & _). destruct r; simpl; auto.
  - destruct (is_None (rule_value rule)); simpl; [apply IH | auto].
Qed.

(** *** The store keeps the objects of the cache *)

Lemma set_value_attr_twice (r : ResultObj) (v v' : PyVal) :
  set_value_attr (set_value_attr r v) v' = set_value_attr r v'.
Proof. destruct r; reflexivity. Qed.

Lemma set_value_attr_self (r : ResultObj) : exists v, set_value_attr r v = r.
Proof. destruct r; simpl; eauto; exists VNone; reflexivity. Qed.

Lemma keeps_objects_refl (h : list ResultObj) : keeps_objects h h.
Proof.
  intros a obj Ha. destruct (set_value_attr_self obj) as [v Hv].
  exists v. rewrite Hv. exact Ha.
Qed.

Lemma keeps_objects_trans (h1 h2 h3 : list ResultObj) :
  keeps_objects h1 h2 -> keeps_objects h2 h3 -> keeps_objects h1 h3.
Proof.
  intros H12 H23 a obj Ha. destruct (H12 a obj Ha) as [v Hv].
  destruct (H23 _ _ Hv) as [v' Hv']. exists v'.
  rewrite set_value_attr_twice in Hv'. exact Hv'.
Qed.

Lemma keeps_objects_app (h l : list ResultObj) : keeps_objects h (h ++ l).
Proof.
  intros a obj Ha. destruct (set_value_attr_self obj) as [v Hv].
  exists v. rewrite Hv. apply lookup_app_l_Some. exact Ha.
Qed.

(** [_result.value = value] on the object at address [a]. *)
Lemma keeps_objects_insert (h : list ResultObj) (a : nat) (obj : ResultObj)
    (v : PyVal) :
  h !! a = Some obj -> keeps_objects h (<[a := set_value_attr obj v]> h).
Proof.
  intros Ha b o Hb. destruct (decide (a = b)) as [<-|Hne].
  - exists v. rewrite list_lookup_insert_eq by (apply lookup_lt_Some in Ha; exact Ha).
    congruence.
  - rewrite list_lookup_insert_ne by exact Hne. apply keeps_objects_refl. exact Hb.
Qed.

Lemma cache_tied_keeps (st st' : Run) :
  cache_tied env st ->
  expr_cache st' = expr_cache st ->
  (forall e, e ∈ evals st -> e ∈ evals st') ->
  keeps_objects (heap st) (heap st') ->
  cache_tied env st'.
Proof.
  intros [Hobj Hinj] Hc Hev Hk. split; rewrite Hc; [|exact Hinj].
  intros e c Hl. destruct (Hobj e c Hl) as [Hin Hm]. split; [auto|].
  destruct c as [a|err]; [|exact Hm].
  destruct Hm as (r & v & Hr & Hh). destruct (Hk _ _ Hh) as [v' Hv'].
  exists r, v'. rewrite set_value_attr_twice in Hv'. auto.
Qed.

(** An evaluation enters the trace once: the cache did not hold the
    expression. *)
Lemma evals_snoc_NoDup (e : Expr) (st : Run) :
  memo_inv st -> expr_cache st !! e = None -> NoDup (evals st ++ [e]).
Proof.
  intros [Hnd Hcov] Hc. apply NoDup_app. split; [exact Hnd|]. split.
  - intros x Hx Hx'. apply list_elem_of_singleton in Hx'. subst x.
    apply Hcov in Hx. rewrite Hc in Hx. destruct Hx as [? Hx]. discriminate.
  - apply NoDup_singleton.
Qed.

(** The cache after an evaluation of [e] that gave [out] covers the trace. *)
Lemma memo_inv_insert (e : Expr) (out : EvalOut) (st st' : Run) :
  memo_inv st -> expr_cache st !! e = None ->
  evals st' = evals st ++ [e] ->
  expr_cache st' = <[e := out]> (expr_cache st) ->
  memo_inv st'.
Proof.
  intros Hinv Hc Hev Hcache. split.
  - rewrite Hev. apply evals_snoc_NoDup; assumption.
  - destruct Hinv as [_ Hcov]. intros x Hx. rewrite Hev in Hx. rewrite Hcache.
    destruct (decide (e = x)) as [->|Hne].
    + rewrite lookup_insert_eq. eauto.
    + rewrite lookup_insert_ne by exact Hne.
      apply elem_of_app in Hx as [Hx|Hx]; [apply Hcov; exact Hx|].
      apply list_elem_of_singleton in Hx. congruence.
Qed.

(** A scan evaluates an expression only when the cache does not hold it, and
    what it writes to the cache is what the evaluation gave. *)
Lemma scan_memo_inv (rules : list Rule) (st : Run) :
  memo_inv st -> cache_tied env st ->
  NoDup (evals (snd (scan env rules st))) /\
  cache_tied env (snd (scan env rules st)) /\
  (forall out, fst (scan env rules st) = Ok out ->
               memo_inv (snd (scan env rules st))).
Proof.
  revert st. induction rules as [|rule rules IH]; intros st Hinv Htied; simpl.
  { split; [apply Hinv|]. split; [exact Htied|]. intros _ _. exact Hinv. }
  destruct (rule_expr rule) as [e|].
  - destruct (expr_cache st !! e) as [c|] eqn:Hc; simpl.
    { split; [apply Hinv|]. split; [exact Htied|]. intros _ _. exact Hinv. }
    destruct (eval_expr_cases e st)
      as [(r & Hr & ->)|[(err & Herr & Hex & ->)|(err & Herr & Hex & ->)]];
      simpl.
    + split; [apply evals_snoc_NoDup; assumption|]. split.
      * destruct Htied as [Hobj Hinj]. split; simpl.
        -- intros x c Hl. destruct (decide (e = x)) as [<-|Hne].
           ++ rewrite lookup_insert_eq in Hl. injection Hl as <-.
              split; [apply elem_of_app; right; apply list_elem_of_singleton;
                      reflexivity|].
              destruct (set_value_attr_self r) as [v Hv]. exists r, v.
              split; [exact Hr|]. rewrite Hv.
              rewrite lookup_app_r by lia. rewrite Nat.sub_diag. reflexivity.
           ++ rewrite lookup_insert_ne in Hl by exact Hne.
              destruct (Hobj x c Hl) as [Hin Hm].
              split; [apply elem_of_app; left; exact Hin|].
              destruct c as [a|err]; [|exact Hm].
              destruct Hm as (r' & v & Hr' & Hh). exists r', v.
              split; [exact Hr'|]. apply lookup_app_l_Some. exact Hh.
        -- assert (Hfresh : forall x,
                     expr_cache st !! x = Some (Obj (length (heap st))) -> False).
           { intros x Hl. destruct (Hobj x _ Hl) as [_ (r' & v & _ & Hh)].
             apply lookup_lt_Some in Hh. lia. }
           intros x x' a. destruct (decide (e = x)) as [<-|Hne];
             destruct (decide (e = x')) as [<-|Hne'];
             rewrite ?lookup_insert_eq, ?lookup_insert_ne by assumption.
           ++ reflexivity.
           ++ intros [= <-] Hl. destruct (Hfresh _ Hl).
           ++ intros Hl [= <-]. destruct (Hfresh _ Hl).
           ++ apply Hinj.
      * intros _ _. eapply memo_inv_insert; [exact Hinv|exact Hc| |]; reflexivity.
    + split; [apply evals_snoc_NoDup; assumption|]. split.
      * destruct Htied as [Hobj Hinj]. split; simpl.
        -- intros x c Hl. destruct (decide (e = x)) as [<-|Hne].
           ++ rewrite lookup_insert_eq in Hl. injection Hl as <-.
              split; [apply elem_of_app; right; apply list_elem_of_singleton;
                      reflexivity|].
              auto.
           ++ rewrite lookup_insert_ne in Hl by exact Hne.
              destruct (Hobj x c Hl) as [Hin Hm].
              split; [apply elem_of_app; left; exact Hin | exact Hm].
        -- intros x x' a. destruct (decide (e = x)) as [<-|Hne];
             destruct (decide (e = x')) as [<-|Hne'];
             rewrite ?lookup_insert_eq, ?lookup_insert_ne by assumption;
             try discriminate.
           apply Hinj.
      * intros _ _. eapply memo_inv_insert; [exact Hinv|exact Hc| |]; reflexivity.
    + split; [apply evals_snoc_NoDup; assumption|]. split; [|discriminate].
      apply (cache_tied_keeps st); [exact Htied|reflexivity| |].
      * intros x Hx. simpl. apply elem_of_app. left. exact Hx.
      * apply keeps_objects_refl.
  - destruct (is_None (rule_value rule)); simpl; [apply IH; assumption|].
    split; [apply Hinv|]. split; [|intros _ _; exact Hinv].
    apply (cache_tied_keeps st); [exact Htied|reflexivity|auto|].
    apply keeps_objects_app.
Qed.

(** *** The branches after the scan keep cache and trace *)

Lemma check_final_memo (last_rule : Rule) (st : Run) :
  expr_cache (flow_run (check_final last_rule st)) = expr_cache st /\
  evals (flow_run (check_final last_rule st)) = evals st /\
  heap (flow_run (check_final last_rule st)) = heap st.
Proof.
  unfold check_final. destruct (result st) as [b|]; [|auto].
  destruct (heap st !! b) as [res|]; [|auto].
  destruct (isinstance res ResultT); [|auto].
  destruct (get_value res); auto.
Qed.

Ltac use_check_final_memo :=
  match goal with
  | |- context [check_final ?l ?s] =>
      destruct (check_final_memo l s) as (-> & -> & ->); simpl; auto
  end.

Lemma fold_addible_memo (last_rule : Rule) (a : nat) (obj : ResultObj) (st : Run) :
  heap st !! a = Some obj ->
  expr_cache (flow_run (fold_addible validate_value last_rule a obj st)) =
    expr_cache st /\
  evals (flow_run (fold_addible validate_value last_rule a obj st)) = evals st /\
  keeps_objects (heap st)
    (heap (flow_run (fold_addible validate_value last_rule a obj st))).
Proof.
  intros Ha. pose proof (keeps_objects_refl (heap st)) as Hrefl.
  unfold fold_addible. destruct (get_value obj) as [v|]; [|auto].
  destruct (is_None (_validate_value validate_value v)); [auto|].
  pose proof (keeps_objects_insert (heap st) a obj
                (_validate_value validate_value v) Ha) as Hins.
  simpl. destruct (result st) as [b|].
  - destruct (<[a:=_]> (heap st) !! b) as [acc|]; [|auto].
    rewrite list_lookup_insert_eq by (apply lookup_lt_Some in Ha; exact Ha).
    destruct (result_add acc _) as [sum|[]]; auto.
    use_check_final_memo. repeat split.
    eapply keeps_objects_trans; [exact Hins|apply keeps_objects_app].
  - use_check_final_memo.
Qed.

Lemma classify_memo (path : RulePath) (last_rule : Rule)
    (_result : option EvalOut) (st : Run) :
  expr_cache (flow_run (classify matches validate_value path last_rule _result st))
    = expr_cache st /\
  evals (flow_run (classify matches validate_value path last_rule _result st))
    = evals st /\
  keeps_objects (heap st)
    (heap (flow_run (classify matches validate_value path last_rule _result st))).
Proof.
  pose proof (keeps_objects_refl (heap st)) as Hrefl.
  unfold classify. destruct _result as [[a|err]|]; [|auto|auto].
  destruct (heap st !! a) as [obj|] eqn:Ha; [|auto].
  destruct (isinstance obj AddibleMixinT); [apply fold_addible_memo; exact Ha|].
  destruct (isinstance obj AbortT); [auto|].
  destruct (isinstance obj BreakT); [destruct obj; auto|].
  destruct (isinstance obj IncludeScheduleT);
    [destruct obj as [| | | |[sched|other]|]; auto|].
  auto.
Qed.

(** A pass of the loop keeps the trace free of duplicates and the cache tied
    to the evaluations; when the loop goes on, the cache covers the trace. *)
Lemma loop_body_memo_inv (st : Run) :
  memo_inv st -> cache_tied env st ->
  NoDup (evals (flow_run (loop_body matches env validate_value st))) /\
  cache_tied env (flow_run (loop_body matches env validate_value st)) /\
  (forall st', loop_body matches env validate_value st = Next st' ->
               memo_inv st').
Proof.
  intros Hinv Htied.
  assert (Hsame : NoDup (evals st) /\ cache_tied env st /\
                  (forall st', Next st = Next st' -> memo_inv st')).
  { split; [apply Hinv|]. split; [exact Htied|]. intros st' [= <-]. exact Hinv. }
  unfold loop_body.
  destruct (paths st !! path_idx st) as [path|];
    [|split; [apply Hinv|]; split; [exact Htied|discriminate]].
  destruct (last (path_rules path)) as [last_rule|];
    [|split; [apply Hinv|]; split; [exact Htied|discriminate]].
  destruct (rule_sub_schedule last_rule) as [sub|].
  { split; [apply Hinv|]. split; [exact Htied|]. intros st' [= <-]. exact Hinv. }
  pose proof (scan_memo_inv (reverse (rules_with_expr_or_value path))
                (advance st) Hinv Htied) as (Hnd & Htied2 & Hinv2).
  destruct (scan env _ (advance st)) as [[_result|err] st2] eqn:Hscan;
    simpl in Hnd, Htied2, Hinv2;
    [|split; [exact Hnd|]; split; [exact Htied2|discriminate]].
  specialize (Hinv2 _ eq_refl).
  destruct (classify_memo path last_rule _result st2) as (Hc & He & Hk).
  split; [rewrite He; exact Hnd|]. split.
  - apply (cache_tied_keeps st2); [exact Htied2|exact Hc| |exact Hk].
    intros x Hx. rewrite He. exact Hx.
  - intros st' Hnext. rewrite Hnext in Hc, He. simpl in Hc, He.
    unfold memo_inv. rewrite Hc, He. exact Hinv2.
Qed.

Lemma locals_after_memo_inv (n : nat) (st : Run) :
  memo_inv st -> cache_tied env st ->
  NoDup (evals (locals_after matches env validate_value n st)) /\
  cache_tied env (locals_after matches env validate_value n st).
Proof.
  revert st. induction n as [|n IH]; intros st Hinv Htied; simpl;
    [split; [apply Hinv|exact Htied]|].
  destruct (bool_decide _); [|split; [apply Hinv|exact Htied]].
  pose proof (loop_body_memo_inv st Hinv Htied) as (Hnd & Htied' & Hnext).
  destruct (loop_body matches env validate_value st) as [st'|r st'|err st'];
    simpl in Hnd, Htied'; [|auto|auto].
  apply IH; [apply Hnext; reflexivity|exact Htied'].
Qed.

(** A run that ends within its fuel ends with the locals that
    [locals_after] gives. *)
Lemma while_loop_locals (fuel : nat) (st st' : Run)
    (res : Py (option (PyVal * Rule))) :
  while_loop matches env validate_value fuel st = Some (res, st') ->
  st' = locals_after matches env validate_value fuel st.
Proof.
  revert st. induction fuel as [|fuel IH]; intros st; simpl; [discriminate|].
  destruct (bool_decide _); [|intros [= _ <-]; reflexivity].
  destruct (loop_body matches env validate_value st);
    [apply IH | intros [= _ <-]; reflexivity | intros [= _ <-]; reflexivity].
Qed.

Lemma initial_run_memo_inv (sched : Schedule) :
  memo_inv (initial_run matches sched).
Proof.
  split; simpl; [apply NoDup_nil_2|].
  intros e He. apply elem_of_nil in He. contradiction.
Qed.

Lemma initial_run_cache_tied (sched : Schedule) :
  cache_tied env (initial_run matches sched).
Proof.
  split; simpl.
  - intros e c Hl. rewrite lookup_empty in Hl. discriminate.
  - intros e e' a Hl. rewrite lookup_empty in Hl. discriminate.
Qed.

(** *** Single passes of the loop *)

Abbreviation loop_body := (room.loop_body matches env validate_value).
Abbreviation while_loop := (room.while_loop matches env validate_value).
Abbreviation classify := (room.classify matches validate_value).

(** A pass that takes a path with a plain frontier rule is the scan of the
    path followed by the classification of its result. *)
Lemma loop_body_scans (st st2 : Run) (path : RulePath) (last_rule : Rule)
    (_result : option EvalOut) :
  scans_to env st path last_rule _result st2 ->
  loop_body st = classify path last_rule _result st2.
Proof.
  intros (Hpath & Hlast & Hsub & Hscan). unfold room.loop_body.
  rewrite Hpath, Hlast, Hsub, Hscan. reflexivity.
Qed.

Lemma scans_to_in_range (st st2 : Run) (path : RulePath) (last_rule : Rule)
    (_result : option EvalOut) :
  scans_to env st path last_rule _result st2 ->
  bool_decide (path_idx st < length (paths st)) = true.
Proof.
  intros (Hpath & _). apply bool_decide_eq_true_2.
  apply lookup_lt_Some in Hpath. exact Hpath.
Qed.

Lemma scans_to_frame (st st2 : Run) (path : RulePath) (last_rule : Rule)
    (_result : option EvalOut) :
  scans_to env st path last_rule _result st2 ->
  paths st2 = paths st /\ path_idx st2 = S (path_idx st) /\
  result st2 = result st.
Proof.
  intros (_ & _ & _ & Hscan).
  pose proof (scan_frame (reverse (rules_with_expr_or_value path))
                (advance st)) as Hf.
  rewrite Hscan in Hf. exact Hf.
Qed.

Lemma classify_Abort (path : RulePath) (last_rule : Rule) (a : nat) (st : Run) :
  heap st !! a = Some Abort ->
  classify path last_rule (Some (Obj a)) st = Return None st.
Proof. intros Ha. unfold room.classify. rewrite Ha. reflexivity. Qed.

Lemma classify_Skip (path : RulePath) (last_rule : Rule) (a : nat) (st : Run) :
  heap st !! a = Some Skip ->
  classify path last_rule (Some (Obj a)) st = Next st.
Proof. intros Ha. unfold room.classify. rewrite Ha. reflexivity. Qed.

(** C6: the trace of evaluator invocations of a run of [eval_schedule] never
    holds an expression twice, after any number of passes of the loop and at
    the end of the run, and all along what the cache holds for an expression
    is what its one evaluation gave: the caught exception, or the address,
    shared with no other expression, of the result object of that
    evaluation (whose [value] the validation may have overwritten).  A scan
    that meets an expression which the cache holds takes the cached result
    without evaluating; one that meets an expression which the cache does
    not hold evaluates it once and caches the new result object, or the
    exception that was caught, under the expression; an exception that does
    not derive from [Exception] is not caught and ends the run. *)
Theorem expressions_evaluated_at_most_once (sched : Schedule) :
  (forall n,
     NoDup (evals (locals_after matches env validate_value n
                     (initial_run matches sched))) /\
     cache_tied env (locals_after matches env validate_value n
                       (initial_run matches sched))) /\
  (forall fuel res st,
     eval_schedule_run matches env validate_value fuel sched = Some (res, st) ->
     NoDup (evals st) /\ cache_tied env st) /\
  (forall st rule rest e c,
     rule_expr rule = Some e -> expr_cache st !! e = Some c ->
     scan env (rule :: rest) st = (Ok (Some c), st)) /\
  (forall st rule rest e err,
     rule_expr rule = Some e -> expr_cache st !! e = None ->
     expression.eval_expr env e = Raise err ->
     isinstance_Exception err = true ->
     exists st',
       scan env (rule :: rest) st = (Ok (Some (Exc err)), st') /\
       expr_cache st' = <[e := Exc err]> (expr_cache st) /\
       expr_cache st' !! e = Some (Exc err) /\
       heap st' = heap st /\
       evals st' = evals st ++ [e]) /\
  (forall st rule rest e r,
     rule_expr rule = Some e -> expr_cache st !! e = None ->
     expression.eval_expr env e = Ok r ->
     exists st',
       scan env (rule :: rest) st = (Ok (Some (Obj (length (heap st)))), st') /\
       expr_cache st' = <[e := Obj (length (heap st))]> (expr_cache st) /\
       heap st' = heap st ++ [r] /\
       heap st' !! length (heap st) = Some r /\
       evals st' = evals st ++ [e]) /\
  (forall st rule rest e err,
     rule_expr rule = Some e -> expr_cache st !! e = None ->
     expression.eval_expr env e = Raise err ->
     isinstance_Exception err = false ->
     exists st',
       scan env (rule :: rest) st = (Raise err, st') /\
       expr_cache st' = expr_cache st /\
       evals st' = evals st ++ [e]).
Proof.
  split; [|split; [|split; [|split; [|split]]]].
  - intros n.
    apply (locals_after_memo_inv n (initial_run matches sched)).
    + apply initial_run_memo_inv.
    + apply initial_run_cache_tied.
  - intros fuel res st Hrun. unfold eval_schedule_run in Hrun.
    apply while_loop_locals in Hrun. subst st.
    apply (locals_after_memo_inv fuel (initial_run matches sched)).
    + apply initial_run_memo_inv.
    + apply initial_run_cache_tied.
  - intros st rule rest e c He Hc. apply (scan_cache_hit rule rest e c st He Hc).
  - intros st rule rest e err He Hc Herr Hex. simpl. rewrite He, Hc.
    unfold room.eval_expr. rewrite Herr, Hex. eexists. split; [reflexivity|].
    simpl. split; [reflexivity|]. split; [apply lookup_insert_eq|].
    split; reflexivity.
  - intros st rule rest e r He Hc Hr. simpl. rewrite He, Hc.
    unfold room.eval_expr. rewrite Hr. eexists. split; [reflexivity|].
    simpl. split; [reflexivity|]. split; [reflexivity|].
    split; [|reflexivity].
    rewrite lookup_app_r by lia. rewrite Nat.sub_diag. reflexivity.
  - intros st rule rest e err He Hc Herr Hex. simpl. rewrite He, Hc.
    unfold room.eval_expr. rewrite Herr, Hex. eexists.
    split; [reflexivity|]. simpl. split; reflexivity.
Qed.

(** A pass whose scan gives [Abort] ends the loop, and the run returns
    [None], whatever the accumulator holds. *)
Lemma abort_ends_run (st st2 : Run) (path : RulePath) (last_rule : Rule)
    (a : nat) (fuel : nat) :
  scans_to env st path last_rule (Some (Obj a)) st2 ->
  heap st2 !! a = Some Abort ->
  while_loop (S fuel) st = Some (Ok None, st2).
Proof.
  intros Hscan Ha. simpl.
  rewrite (scans_to_in_range _ _ _ _ _ Hscan).
  rewrite (loop_body_scans _ _ _ _ _ Hscan).
  rewrite (classify_Abort path last_rule a st2 Ha). reflexivity.
Qed.

(** The accumulator [Add(x)] at address [b] meets a validated addible
    result whose payload cannot be added to [x]: the [TypeError] is caught. *)
Lemma classify_TypeError (path : RulePath) (last_rule : Rule) (a b : nat)
    (obj : ResultObj) (x v : PyVal) (st : Run) :
  a <> b ->
  heap st !! a = Some obj ->
  get_value obj = Some v ->
  is_None (_validate_value validate_value v) = false ->
  result st = Some b ->
  heap st !! b = Some (Add x) ->
  py_add x (_validate_value validate_value v) = Raise TypeError ->
  exists st1,
    classify path last_rule (Some (Obj a)) st = Next st1 /\
    result st1 = Some b /\ heap st1 !! b = Some (Add x) /\
    paths st1 = paths st /\ path_idx st1 = path_idx st.
Proof.
  intros Hab Ha Hv Hval Hres Hb Hadd.
  assert (Hlt : a < length (heap st)) by (apply lookup_lt_Some in Ha; exact Ha).
  unfold room.classify. rewrite Ha.
  assert (Hadd_inst : isinstance obj AddibleMixinT = true).
  { rewrite isinstance_AddibleMixin. destruct obj; try discriminate; reflexivity. }
  rewrite Hadd_inst. unfold fold_addible. rewrite Hv, Hval. simpl. rewrite Hres.
  rewrite list_lookup_insert_ne by exact Hab. rewrite Hb.
  rewrite list_lookup_insert_eq by exact Hlt.
  assert (Hsum : result_add (Add x)
                   (set_value_attr obj (_validate_value validate_value v))
                 = Raise TypeError).
  { rewrite result_add_Add. unfold Add_add.
    destruct obj; try discriminate; simpl; rewrite Hadd; reflexivity. }
  rewrite Hsum. eexists. split; [reflexivity|]. simpl.
  rewrite list_lookup_insert_ne by exact Hab. auto.
Qed.

(** C5: adding an addible result with payload [y] to [Add(x)] gives a result
    of the right operand's class that carries [x + y]; when the payloads
    cannot be added, or when the right operand is not addible, the addition
    raises [TypeError].  In the traversal such an error is caught: the pass
    ends with the accumulator as it was, and the loop goes on with the next
    path. *)
Theorem accumulate_addition (x : PyVal) (r : ResultObj) :
  (forall y s,
     get_value r = Some y -> py_add x y = Ok s ->
     exists sum,
       result_add (Add x) r = Ok sum /\
       type_of sum = type_of r /\ get_value sum = Some s) /\
  (forall y,
     get_value r = Some y -> py_add x y = Raise TypeError ->
     result_add (Add x) r = Raise TypeError) /\
  (isinstance r AddibleMixinT = false ->
   result_add (Add x) r = Raise TypeError) /\
  (forall st st2 path last_rule a b v,
     scans_to env st path last_rule (Some (Obj a)) st2 ->
     a <> b ->
     heap st2 !! a = Some r ->
     get_value r = Some v ->
     is_None (_validate_value validate_value v) = false ->
     result st2 = Some b ->
     heap st2 !! b = Some (Add x) ->
     py_add x (_validate_value validate_value v) = Raise TypeError ->
     exists st3,
       loop_body st = Next st3 /\
       result st3 = Some b /\ heap st3 !! b = Some (Add x) /\
       paths st3 = paths st /\ path_idx st3 = S (path_idx st)).
Proof.
  split; [|split; [|split]].
  - intros y s Hy Hadd. rewrite result_add_Add. unfold Add_add.
    destruct r; try discriminate; injection Hy as ->; simpl; rewrite Hadd;
      simpl; eexists; repeat split.
  - intros y Hy Hadd. rewrite result_add_Add. unfold Add_add.
    destruct r; try discriminate; injection Hy as ->; simpl; rewrite Hadd;
      reflexivity.
  - intros Hna. rewrite result_add_Add. unfold Add_add. rewrite Hna. reflexivity.
  - intros st st2 path last_rule a b v Hscan Hab Ha Hv Hval Hres Hb Hadd.
    rewrite (loop_body_scans _ _ _ _ _ Hscan).
    destruct (classify_TypeError path last_rule a b r x v st2
                Hab Ha Hv Hval Hres Hb Hadd)
      as (st3 & Hc & Hr & Hh & Hp & Hi).
    destruct (scans_to_frame _ _ _ _ _ Hscan) as (Hp2 & Hi2 & _).
    exists st3. rewrite Hc, Hp, Hi, Hp2, Hi2. auto.
Qed.

(** C1, amended: the scan of a path stops at the innermost rule [R2] that
    carries an expression, and the rules outside of it are not consulted.
    When the result of [R2] is [Result(v)], no accumulated value is pending
    and the validator accepts [v] as [v'], the run returns [v'] with the
    frontier rule.  When the result of [R2] is [Skip], the path contributes
    nothing: the pass leaves worklist and accumulator as they were and the
    loop goes on with the next path. *)
Theorem innermost_result_decides (st st2 : Run) (path : RulePath)
    (last_rule R2 : Rule) (outer : list Rule) (e2 : Expr)
    (out : option EvalOut) :
  paths st !! path_idx st = Some path ->
  last (path_rules path) = Some last_rule ->
  rule_sub_schedule last_rule = None ->
  rules_with_expr_or_value path = outer ++ [R2] ->
  rule_expr R2 = Some e2 ->
  scan env [R2] (advance st) = (Ok out, st2) ->
  loop_body st = classify path last_rule out st2 /\
  (evals st2 = evals st \/ evals st2 = evals st ++ [e2]) /\
  (forall a v v',
     out = Some (Obj a) -> heap st2 !! a = Some (Result v) ->
     result st = None -> validate_value v = Some v' -> is_None v' = false ->
     exists st', loop_body st = Return (Some (v', last_rule)) st') /\
  (forall a,
     out = Some (Obj a) -> heap st2 !! a = Some Skip ->
     loop_body st = Next st2 /\ result st2 = result st /\
     paths st2 = paths st /\ path_idx st2 = S (path_idx st)).
Proof.
  intros Hpath Hlast Hsub Hrules He2 Hscan2.
  assert (Hscan : scans_to env st path last_rule out st2).
  { unfold scans_to. repeat (split; [assumption|]).
    rewrite Hrules, reverse_app. change (reverse [R2]) with [R2]. simpl app.
    rewrite (scan_stops_at_expr R2 (reverse outer) e2 _ He2). exact Hscan2. }
  pose proof (loop_body_scans _ _ _ _ _ Hscan) as Hbody.
  destruct (scans_to_frame _ _ _ _ _ Hscan) as (Hp & Hi & Hr).
  split; [exact Hbody|]. split; [|split].
  - simpl in Hscan2. rewrite He2 in Hscan2. simpl in Hscan2.
    destruct (expr_cache st !! e2) as [c|].
    + injection Hscan2 as _ <-. left. reflexivity.
    + destruct (room.eval_expr env e2 (advance st)) as [[r|err] st1] eqn:Hev;
        [|discriminate].
      injection Hscan2 as _ <-. right. simpl.
      pose proof (eval_expr_frame e2 (advance st)) as Hf. rewrite Hev in Hf.
      simpl in Hf. destruct Hf as (_ & _ & _ & _ & Hf). exact Hf.
  - intros a v v' -> Ha Hnone Hval Hv'. rewrite Hbody.
    assert (Hlt : a < length (heap st2)) by (apply lookup_lt_Some in Ha; exact Ha).
    unfold room.classify. rewrite Ha.
    change (isinstance (Result v) AddibleMixinT) with true. cbv iota.
    unfold fold_addible, _validate_value. simpl get_value. cbv iota.
    rewrite Hval, Hv'. simpl. rewrite Hr, Hnone.
    unfold check_final. simpl.
    rewrite list_lookup_insert_eq by exact Hlt.
    change (isinstance (Result v') ResultT) with true. cbv iota. simpl.
    eexists. reflexivity.
  - intros a -> Ha. rewrite Hbody.
    rewrite (classify_Skip path last_rule a st2 Ha). auto.
Qed.

End EvaluationFacts.

(** ** Pruning by [Break] *)

Lemma rules_eq_refl (l : list Rule) : rules_eq l l = true.
Proof.
  induction l as [|r l IH]; simpl; [reflexivity|].
  unfold rule_eq. rewrite Nat.eqb_refl. exact IH.
Qed.

Lemma schedule_eq_refl (s : Schedule) : schedule_eq s s = true.
Proof. unfold schedule_eq. apply Nat.eqb_refl. Qed.

Lemma rule_eq_ne (a b : Rule) : rule_id a <> rule_id b -> rule_eq a b = false.
Proof. intros H. unfold rule_eq. apply Nat.eqb_neq. exact H. Qed.

(** The loop of the [Break] branch, started at the cursor, deletes the
    leading paths that share root schedule and prefix and keeps the rest. *)
Lemma break_loop_closed (fuel : nat) (visited rest : list RulePath)
    (path : RulePath) (prefix_size : nat) (prefix : list Rule) :
  length rest <= fuel ->
  break_loop fuel (visited ++ rest) (length visited) path prefix_size prefix =
  visited ++ skip_shared path prefix_size prefix rest.
Proof.
  revert rest. induction fuel as [|fuel IH]; intros rest Hlen.
  - destruct rest; [reflexivity | simpl in Hlen; lia].
  - destruct rest as [|p rest]; simpl.
    + rewrite lookup_ge_None_2 by (rewrite length_app; simpl; lia). reflexivity.
    + rewrite list_lookup_middle by reflexivity.
      destruct (schedule_eq (root_schedule p) (root_schedule path) &&
                rules_eq (take prefix_size (path_rules p)) prefix).
      * rewrite delete_middle. apply IH. simpl in Hlen. lia.
      * reflexivity.
Qed.

Lemma break_paths_closed (visited rest : list RulePath) (path : RulePath)
    (levels : Z) :
  let prefix_size :=
    Z.to_nat (Z.max 0 (Z.of_nat (length (path_rules path)) - levels)) in
  break_paths (visited ++ rest) (length visited) path levels =
  visited ++ skip_shared path prefix_size (take prefix_size (path_rules path)) rest.
Proof.
  unfold break_paths. apply break_loop_closed. rewrite length_app. lia.
Qed.

(** C2, amended: with the paths [[A,B,D]], [[A,E]] waiting at the cursor,
    [Break(2)] from the path [[A,B,C]] removes both of them, because both
    share its one-rule prefix [[A]]; a path that starts with another rule
    stays, with everything behind it.  It is [Break(1)] that removes
    [[A,B,D]] and keeps [[A,E]]. *)
Theorem break_levels_prune_shared_prefix (root : Schedule) (A B C D E X : Rule)
    (tail : list Rule) (visited later : list RulePath) :
  rule_id X <> rule_id A ->
  rule_id E <> rule_id B ->
  break_paths
    (visited ++ [mkRulePath root [A; B; D]; mkRulePath root [A; E];
                 mkRulePath root (X :: tail)] ++ later)
    (length visited) (mkRulePath root [A; B; C]) 2
  = visited ++ [mkRulePath root (X :: tail)] ++ later /\
  break_paths
    (visited ++ [mkRulePath root [A; B; D]; mkRulePath root [A; E]] ++ later)
    (length visited) (mkRulePath root [A; B; C]) 1
  = visited ++ [mkRulePath root [A; E]] ++ later.
Proof.
  intros HX HE. split.
  - rewrite break_paths_closed. simpl.
    rewrite !schedule_eq_refl. unfold rule_eq at 1 2. rewrite !Nat.eqb_refl. simpl.
    rewrite (rule_eq_ne X A HX). reflexivity.
  - rewrite break_paths_closed. simpl.
    rewrite !schedule_eq_refl. unfold rule_eq at 1 2. rewrite !Nat.eqb_refl. simpl.
    unfold rule_eq at 1. rewrite Nat.eqb_refl. simpl.
    rewrite (rule_eq_ne E B HE). reflexivity.
Qed.

(** ** The room *)

Ltac run_M :=
  repeat (unfold room.apply_schedule, room.get_scheduled_value,
            room.notify_value_changed, room.set_value,
            room.start_reschedule_timer, room.cancel_reschedule_timer,
            room.set_wanted_value, room.set_scheduled_value,
            room.set_reschedule_timer, room.app_cancel_timer, room.app_run_at,
            room.actor_set_value, room.app_set_state, room.finished,
            room.get_room, room.put_room, room.get_app, room.put_app,
            mbind, M_bind, mret, M_ret in *; simpl in *).

Lemma send_to_actors_sent (l : list nat) (value : PyVal) (force_resend : bool)
    (s : State) :
  send_to_actors l value force_resend s =
  Some (tt, mkState (room s)
              (mkApp (next_handle (app s)) (timers (app s))
                     (sent (app s) ++
                      List.map (fun actor => (actor, value, force_resend)) l)
                     (sensor_writes (app s)))).
Proof.
  revert s. induction l as [|actor l IH]; intros [r a]; simpl.
  - rewrite app_nil_r. destruct a; reflexivity.
  - run_M. rewrite IH. simpl. rewrite <- app_assoc. reflexivity.
Qed.

(** [set_value] records the value as wanted and hands it to every actor. *)
Lemma set_value_state (value : PyVal) (force_resend : bool) (s : State) :
  room.set_value value force_resend s =
  Some (tt, mkState
              (mkRoom (cfg_replicate_changes (room s))
                      (cfg_reschedule_delay (room s)) (actors (room s))
                      (schedule (room s)) value (scheduled_value (room s))
                      (reschedule_timer (room s)))
              (mkApp (next_handle (app s)) (timers (app s))
                     (sent (app s) ++
                      List.map (fun actor => (actor, value, force_resend))
                               (actors (room s)))
                     (sensor_writes (app s)))).
Proof.
  unfold room.set_value. run_M. rewrite send_to_actors_sent. reflexivity.
Qed.

(** After [cancel_reschedule_timer], no timer is recorded. *)
Lemma cancel_reschedule_timer_clears (s s' : State) (b : bool) :
  cancel_reschedule_timer s = Some (b, s') ->
  reschedule_timer (room s') = None /\
  wanted_value (room s') = wanted_value (room s) /\
  sent (app s') = sent (app s).
Proof.
  run_M. destruct (reschedule_timer (room s)) eqn:Ht; intros [= _ <-];
    simpl; auto.
Qed.

(** In a room that replicates changes to several actors, a reported value
    always ends up compared with itself: whatever was wanted before, the
    notification leaves no timer. *)
Lemma notify_value_changed_replicating (value : PyVal) (s : State) :
  cfg_replicate_changes (room s) = true ->
  1 < length (actors (room s)) ->
  exists s',
    notify_value_changed value s = Some (tt, s') /\
    reschedule_timer (room s') = None /\
    wanted_value (room s') = value.
Proof.
  intros Hrep Hlen. unfold notify_value_changed.
  unfold mbind at 1, M_bind at 1. unfold get_room at 1. cbv beta iota.
  rewrite Hrep. rewrite (bool_decide_eq_true_2 _ Hlen). cbv beta iota. simpl andb.
  cbv iota. unfold mbind at 1, M_bind at 1.
  rewrite set_value_state. cbv beta iota.
  unfold mbind at 1, M_bind at 1. unfold get_room at 1. cbv beta iota.
  simpl wanted_value. rewrite py_eq_refl. cbv iota.
  unfold mbind at 1, M_bind at 1.
  match goal with
  | |- context [cancel_reschedule_timer ?t] =>
      destruct (cancel_reschedule_timer t) as [[b s']|] eqn:Hc
  end.
  - apply cancel_reschedule_timer_clears in Hc as (Ht & Hw & _).
    exists s'. split; [reflexivity|]. split; [exact Ht|]. rewrite Hw. reflexivity.
  - revert Hc. run_M. destruct (reschedule_timer (room s)); discriminate.
Qed.

(** In a room that does not replicate, the reported value is compared with
    what the room wanted before: agreement cancels the timer, and a different
    value arms a new one when a delay is configured. *)
Lemma notify_value_changed_plain (value : PyVal) (s : State) :
  cfg_replicate_changes (room s) && bool_decide (1 < length (actors (room s)))
    = false ->
  exists s',
    notify_value_changed value s = Some (tt, s') /\
    wanted_value (room s') = wanted_value (room s) /\
    sent (app s') = sent (app s) /\
    (py_eq value (wanted_value (room s)) = true ->
     reschedule_timer (room s') = None) /\
    (py_eq value (wanted_value (room s)) = false ->
     cfg_reschedule_delay (room s) <> 0%Z ->
     reschedule_timer (room s') = Some (next_handle (app s)) /\
     exists kept,
       timers (app s') =
         kept ++ [(next_handle (app s), cfg_reschedule_delay (room s))]).
Proof.
  destruct s as [[rep delay acts sch wanted sv timer] a]. simpl.
  intros Hplain. unfold notify_value_changed.
  unfold mbind at 1, M_bind at 1. unfold get_room at 1. cbv beta iota.
  simpl. rewrite Hplain. run_M.
  destruct (py_eq value wanted) eqn:Heq.
  - destruct timer; simpl;
      eexists; (split; [reflexivity|]); simpl;
      (repeat split; try reflexivity; try discriminate).
  - destruct (Z.eqb_spec delay 0) as [Hz|Hnz]; simpl.
    + eexists. split; [reflexivity|]. simpl.
      repeat split; try reflexivity; try discriminate.
      all: contradiction.
    + destruct timer; simpl;
        eexists; (split; [reflexivity|]); simpl;
        (repeat split; try reflexivity; try discriminate);
        eexists; reflexivity.
Qed.

Section ReconciliationClaims.

Variable matches : Rule -> bool.
Variable env : Expr -> Py PyObj.
Variable validate_value : PyVal -> option PyVal.
Variable serialize_value : PyVal -> option string.
Variable fuel : nat.

Abbreviation apply_schedule :=
  (room.apply_schedule matches env validate_value serialize_value fuel).
Abbreviation get_scheduled_value :=
  (room.get_scheduled_value matches env validate_value fuel).

(** The scheduled value is a function of the schedule alone. *)
Lemma get_scheduled_value_pure (s s' : State)
    (res : Py (option (PyVal * Rule))) :
  get_scheduled_value s = Some (res, s') ->
  s' = s /\
  forall t, schedule (room t) = schedule (room s) ->
            get_scheduled_value t = Some (res, t).
Proof.
  unfold room.get_scheduled_value. run_M.
  destruct (schedule (room s)) as [sched|] eqn:Hs.
  - destruct (eval_schedule matches env validate_value fuel sched) as [r|] eqn:He;
      [|discriminate].
    intros [= <- <-]. split; [reflexivity|]. intros t ->. rewrite He. reflexivity.
  - intros [= <- <-]. split; [reflexivity|]. intros t ->. reflexivity.
Qed.

(** C7: a pass whose scan gives [Abort] ends the run of [eval_schedule]
    with [None], whatever the accumulator holds; and when the room gets
    [None] for its scheduled value, [apply_schedule] returns with the room,
    its timer and its collaborators exactly as they were. *)
Theorem abort_leaves_room_unchanged :
  (forall st st2 path last_rule a n,
     scans_to env st path last_rule (Some (Obj a)) st2 ->
     heap st2 !! a = Some Abort ->
     room.while_loop matches env validate_value (S n) st = Some (Ok None, st2)) /\
  (forall s s' send force_resend,
     get_scheduled_value s = Some (Ok None, s') ->
     apply_schedule send force_resend s = Some (Ok tt, s)).
Proof.
  split.
  - intros st st2 path last_rule a n Hscan Ha.
    apply (abort_ends_run matches env validate_value st st2 path last_rule a n
             Hscan Ha).
  - intros s s' send force_resend Hget.
    apply get_scheduled_value_pure in Hget as Hpure. destruct Hpure as [-> _].
    unfold room.apply_schedule.
    unfold mbind at 1, M_bind at 1. unfold get_room at 1. cbv beta iota.
    destruct (bool_decide (is_Some (reschedule_timer (room s)))); [reflexivity|].
    unfold mbind at 1, M_bind at 1. rewrite Hget. reflexivity.
Qed.

(** When the value found equals [scheduled_value] and [force_resend] is off,
    [apply_schedule] changes nothing and sends nothing. *)
Lemma apply_schedule_unchanged (s : State) (v : PyVal) (rule : Rule)
    (send : bool) :
  reschedule_timer (room s) = None ->
  get_scheduled_value s = Some (Ok (Some (v, rule)), s) ->
  py_eq v (scheduled_value (room s)) = true ->
  apply_schedule send false s = Some (Ok tt, s).
Proof.
  intros Ht Hget Heq. unfold room.apply_schedule.
  unfold mbind at 1, M_bind at 1. unfold get_room at 1. cbv beta iota.
  rewrite Ht. rewrite bool_decide_eq_false_2 by (intros [? ?]; discriminate).
  unfold mbind at 1, M_bind at 1. rewrite Hget. cbv beta iota.
  rewrite Heq. reflexivity.
Qed.

(** When the value found differs from [scheduled_value], or [force_resend] is
    on, [apply_schedule] records it and hands it to every actor. *)
Lemma apply_schedule_sends (s : State) (v : PyVal) (rule : Rule)
    (force_resend : bool) :
  reschedule_timer (room s) = None ->
  get_scheduled_value s = Some (Ok (Some (v, rule)), s) ->
  py_eq v (scheduled_value (room s)) && negb force_resend = false ->
  exists s1,
    apply_schedule true force_resend s = Some (Ok tt, s1) /\
    sent (app s1) =
      sent (app s) ++
      List.map (fun actor => (actor, v, force_resend)) (actors (room s)) /\
    room s1 = mkRoom (cfg_replicate_changes (room s))
                     (cfg_reschedule_delay (room s)) (actors (room s))
                     (schedule (room s)) v v None.
Proof.
  intros Ht Hget Hne. unfold room.apply_schedule.
  unfold mbind at 1, M_bind at 1. unfold get_room at 1. cbv beta iota.
  rewrite Ht. rewrite bool_decide_eq_false_2 by (intros [? ?]; discriminate).
  unfold mbind at 1, M_bind at 1. rewrite Hget. cbv beta iota.
  rewrite Hne. cbv iota.
  destruct (serialize_value v) as [str|]; run_M;
    rewrite send_to_actors_sent; simpl; rewrite Ht;
    eexists; (split; [reflexivity|]); simpl; auto.
Qed.

(** C8, amended: with no timer pending, sending enabled and a value [v]
    found by the schedule that differs from the recorded [scheduled_value],
    two calls of [apply_schedule] hand [v] to the actors once, in the first
    call; the second call changes nothing.  The send is skipped whenever the
    value found equals [scheduled_value], the value last recorded by
    scheduling, unless [force_resend] is set: then it is sent again. *)
Theorem apply_schedule_sends_once (s : State) (v : PyVal) (rule : Rule) :
  reschedule_timer (room s) = None ->
  get_scheduled_value s = Some (Ok (Some (v, rule)), s) ->
  py_eq v (scheduled_value (room s)) = false ->
  exists s1 s2,
    apply_schedule true false s = Some (Ok tt, s1) /\
    sent (app s1) =
      sent (app s) ++ List.map (fun actor => (actor, v, false)) (actors (room s)) /\
    apply_schedule true false s1 = Some (Ok tt, s1) /\
    apply_schedule true true s1 = Some (Ok tt, s2) /\
    sent (app s2) =
      sent (app s1) ++ List.map (fun actor => (actor, v, true)) (actors (room s)) /\
    (forall t send,
       reschedule_timer (room t) = None ->
       schedule (room t) = schedule (room s) ->
       py_eq v (scheduled_value (room t)) = true ->
       apply_schedule send false t = Some (Ok tt, t)).
Proof.
  intros Ht Hget Hne.
  destruct (get_scheduled_value_pure s s _ Hget) as [_ Hpure].
  destruct (apply_schedule_sends s v rule false Ht Hget) as (s1 & Hrun1 & Hsent1 & Hroom1).
  { rewrite Hne. reflexivity. }
  assert (Ht1 : reschedule_timer (room s1) = None) by (rewrite Hroom1; reflexivity).
  assert (Hget1 : get_scheduled_value s1 = Some (Ok (Some (v, rule)), s1)).
  { apply Hpure. rewrite Hroom1. reflexivity. }
  assert (Heq1 : py_eq v (scheduled_value (room s1)) = true).
  { rewrite Hroom1. simpl. apply py_eq_refl. }
  destruct (apply_schedule_sends s1 v rule true Ht1 Hget1) as (s2 & Hrun2 & Hsent2 & _).
  { rewrite Heq1. reflexivity. }
  exists s1, s2. split; [exact Hrun1|]. split; [exact Hsent1|].
  split; [apply (apply_schedule_unchanged s1 v rule true Ht1 Hget1 Heq1)|].
  split; [exact Hrun2|]. split.
  - rewrite Hsent2, Hroom1. reflexivity.
  - intros t send Htt Hsched Heq.
    apply (apply_schedule_unchanged t v rule send Htt (Hpure t Hsched) Heq).
Qed.

End ReconciliationClaims.

(** ** The properties on the example schedules and rooms *)

Import examples.

Lemma innermost_result_decides_witness :
  (exists st',
     room.loop_body always (env_override (Result (VInt 5))) generic.validate_value
       (at_frontier (Result (VInt 5)))
     = Return (Some (VInt 5, rule_F)) st') /\
  (exists st',
     room.loop_body always (env_override Skip) generic.validate_value
       (at_frontier Skip)
     = Next st' /\ result st' = None).
Proof.
  split.
  - pose (env := env_override (Result (VInt 5))).
    pose (st := at_frontier (Result (VInt 5))).
    destruct (innermost_result_decides always env generic.validate_value
                st (snd (scan env [rule_R2] (advance st))) path_R1R2F
                rule_F rule_R2 [rule_R1] 2 (Some (Obj 0))
                eq_refl eq_refl eq_refl eq_refl eq_refl eq_refl)
      as (_ & _ & Hfinal & _).
    apply (Hfinal 0 (VInt 5) (VInt 5)); reflexivity.
  - pose (env := env_override Skip).
    pose (st := at_frontier Skip).
    destruct (innermost_result_decides always env generic.validate_value
                st (snd (scan env [rule_R2] (advance st))) path_R1R2F
                rule_F rule_R2 [rule_R1] 2 (Some (Obj 0))
                eq_refl eq_refl eq_refl eq_refl eq_refl eq_refl)
      as (_ & _ & _ & Hskip).
    destruct (Hskip 0 eq_refl eq_refl) as (Hnext & Hres & _).
    eexists. split; [exact Hnext | exact Hres].
Defined.

(** C1, as stated, fails.  With [R2] yielding [Skip] the run returns [None],
    although the expression of [R1] evaluates to 7: it is never evaluated.
    And with [R2] yielding [Result(5)] after another rule has left
    [Add(2)], the run returns 7. *)
Lemma skip_does_not_delegate :
  eval_schedule always (env_override Skip) generic.validate_value 10 overrides
    = Some (Ok None) /\
  expression.eval_expr (env_override Skip) 1 = Ok (Result (VInt 7)) /\
  (forall st res,
     eval_schedule_run always (env_override Skip) generic.validate_value 10
       overrides = Some (res, st) ->
     evals st = [2]) /\
  eval_schedule always (env_override (Result (VInt 5))) generic.validate_value
    10 accumulated = Some (Ok (Some (VInt 7, rule_F))).
Proof.
  split; [reflexivity|]. split; [reflexivity|]. split; [|reflexivity].
  intros st res. vm_compute. intros [= _ <-]. reflexivity.
Qed.

Lemma break_levels_prune_shared_prefix_witness :
  break_paths [path_A; path_AB; path_ABC; path_ABD; path_AE;
               mkRulePath nested [rule_R1]] 3 path_ABC 2
    = [path_A; path_AB; path_ABC; mkRulePath nested [rule_R1]] /\
  break_paths [path_A; path_AB; path_ABC; path_ABD; path_AE] 3 path_ABC 1
    = [path_A; path_AB; path_ABC; path_AE].
Proof.
  apply (break_levels_prune_shared_prefix nested rule_A rule_B rule_C rule_D
           rule_E rule_R1 [] [path_A; path_AB; path_ABC] []).
  - simpl. lia.
  - simpl. lia.
Defined.

(** C2, as stated, fails: with the worklist of the claim, [Break(2)] from
    [[A,B,C]] removes [[A,E]] as well, and the evaluation of the schedule
    never reaches the rule [E]; with [Break(1)] it does. *)
Lemma break_two_levels_removes_AE :
  break_paths [path_ABC; path_ABD; path_AE] 1 path_ABC 2 = [path_ABC] /\
  eval_schedule always (env_break 2) generic.validate_value 10 nested
    = Some (Ok None) /\
  eval_schedule always (env_break 1) generic.validate_value 10 nested
    = Some (Ok (Some (VInt 2, rule_E))).
Proof. split; [reflexivity|]. split; reflexivity. Qed.

(** C3, at the failing input: in a room with two actors that replicates
    changes, wants 20 and has a delay of 10 minutes, the report of 22 leaves
    no timer armed, and 22 is what the room wants from then on.  The same
    report in the room that does not replicate arms the timer. *)
Lemma replicated_drift_arms_no_timer :
  (exists s',
     notify_value_changed (VInt 22) (two_actor_room true) = Some (tt, s') /\
     reschedule_timer (room s') = None /\ timers (app s') = [] /\
     wanted_value (room s') = VInt 22) /\
  (exists s',
     notify_value_changed (VInt 22) (two_actor_room false) = Some (tt, s') /\
     reschedule_timer (room s') = Some 0 /\ timers (app s') = [(0, 10%Z)] /\
     wanted_value (room s') = VInt 20).
Proof.
  split; eexists; (split; [reflexivity|]); simpl; auto.
Qed.

Lemma accumulate_addition_witness :
  (exists sum,
     result_add (Add (VInt 2)) (Result (VInt 3)) = Ok sum /\
     type_of sum = ResultT /\ get_value sum = Some (VInt 5)) /\
  result_add (Add (VInt 2)) Skip = Raise TypeError /\
  (exists st3,
     room.loop_body always (env_override Skip) generic.validate_value at_mismatch
       = Next st3 /\
     result st3 = Some 0 /\ heap st3 !! 0 = Some (Add (VInt 2))).
Proof.
  split; [|split].
  - destruct (accumulate_addition always (env_override Skip)
                generic.validate_value (VInt 2) (Result (VInt 3)))
      as (Hsum & _).
    apply (Hsum (VInt 3) (VInt 5)); reflexivity.
  - destruct (accumulate_addition always (env_override Skip)
                generic.validate_value (VInt 2) Skip)
      as (_ & _ & Hna & _).
    apply Hna. reflexivity.
  - destruct (accumulate_addition always (env_override Skip)
                generic.validate_value (VInt 2) (Add (VStr "a")))
      as (_ & _ & _ & Hloop).
    destruct (Hloop at_mismatch
                (snd (scan (env_override Skip)
                        [mkRule 52 (Some 3) VNone None] (advance at_mismatch)))
                (mkRulePath mixed [mkRule 52 (Some 3) VNone None])
                (mkRule 52 (Some 3) VNone None) 1 0 (VStr "a"))
      as (st3 & Hnext & Hres & Hacc & _).
    + repeat split.
    + lia.
    + reflexivity.
    + reflexivity.
    + reflexivity.
    + reflexivity.
    + reflexivity.
    + reflexivity.
    + exists st3. auto.
Defined.

Lemma expressions_evaluated_at_most_once_witness :
  NoDup (evals (locals_after always (env_override Skip) generic.validate_value
                  5 (initial_run always accumulated))) /\
  cache_tied (env_override Skip)
    (locals_after always (env_override Skip) generic.validate_value
       5 (initial_run always accumulated)) /\
  scan (env_override Skip) [rule_P] at_mismatch
    = (Ok (Some (Obj 0)), at_mismatch) /\
  (exists st',
     scan (env_override Skip) [rule_R1] at_mismatch = (Ok (Some (Obj 1)), st') /\
     expr_cache st' !! 1 = Some (Obj 1) /\
     heap st' !! 1 = Some (Result (VInt 7)) /\
     evals st' = [0; 1]) /\
  (exists st',
     scan (env_override Skip) [mkRule 60 (Some 9) VNone None] at_mismatch
       = (Ok (Some (Exc (OtherException 1))), st') /\
     expr_cache st' !! 9 = Some (Exc (OtherException 1)) /\
     evals st' = [0; 9]).
Proof.
  destruct (expressions_evaluated_at_most_once always (env_override Skip)
              generic.validate_value accumulated)
    as (Hn & _ & Hhit & Herr & Hnew & _).
  split; [apply (Hn 5)|]. split; [apply (Hn 5)|]. split; [|split].
  - apply (Hhit at_mismatch rule_P [] 0 (Obj 0)); reflexivity.
  - destruct (Hnew at_mismatch rule_R1 [] 1 (Result (VInt 7))
                eq_refl eq_refl eq_refl) as (st' & Hscan & Hc & _ & Hobj & He).
    exists st'. split; [exact Hscan|]. split; [|split].
    + rewrite Hc. apply lookup_insert_eq.
    + exact Hobj.
    + rewrite He. reflexivity.
  - destruct (Herr at_mismatch (mkRule 60 (Some 9) VNone None) [] 9
                (OtherException 1) eq_refl eq_refl eq_refl eq_refl)
      as (st' & Hscan & _ & Hc & _ & He).
    exists st'. split; [exact Hscan|]. split; [exact Hc|].
    rewrite He. reflexivity.
Defined.

Lemma abort_leaves_room_unchanged_witness :
  room.while_loop always (env_override Abort) generic.validate_value 1
    (at_frontier Abort)
  = Some (Ok None,
          snd (scan (env_override Abort) [rule_R2] (advance (at_frontier Abort)))) /\
  room.apply_schedule always (env_override Abort) generic.validate_value
    no_mirror 10 true false overrides_room
  = Some (Ok tt, overrides_room).
Proof.
  destruct (abort_leaves_room_unchanged always (env_override Abort)
              generic.validate_value no_mirror 10) as [Hrun Hroom].
  split.
  - apply (Hrun (at_frontier Abort) _ path_R1R2F rule_F 0 0).
    + repeat split.
    + reflexivity.
  - apply (Hroom overrides_room overrides_room true false). reflexivity.
Defined.

Lemma apply_schedule_sends_once_witness :
  exists s1 s2,
    room.apply_schedule always (env_override Skip) generic.validate_value
      no_mirror 10 true false fresh_room = Some (Ok tt, s1) /\
    sent (app s1) = [(0, VInt 20, false)] /\
    room.apply_schedule always (env_override Skip) generic.validate_value
      no_mirror 10 true false s1 = Some (Ok tt, s1) /\
    room.apply_schedule always (env_override Skip) generic.validate_value
      no_mirror 10 true true s1 = Some (Ok tt, s2) /\
    sent (app s2) = [(0, VInt 20, false); (0, VInt 20, true)].
Proof.
  destruct (apply_schedule_sends_once always (env_override Skip)
              generic.validate_value no_mirror 10 fresh_room (VInt 20)
              (mkRule 41 None (VInt 20) None) eq_refl eq_refl eq_refl)
    as (s1 & s2 & H1 & Hs1 & H2 & H3 & Hs2 & _).
  exists s1, s2. split; [exact H1|]. split; [exact Hs1|]. split; [exact H2|].
  split; [exact H3|]. rewrite Hs2, Hs1. reflexivity.
Defined.

(** C8, as stated, fails.  The room has sent 20 and wants 20 when an actor
    reports 22 and the timer is armed; when the timer fires, the schedule
    gives 20 again, [force_resend] is off, and 20 is sent once more:
    [scheduled_value], which the timer has reset, is what the value is
    compared with, not the value last sent. *)
Lemma reschedule_resends_sent_value :
  exists s1 s2,
    schedule_then_drift fresh_room = Some (tt, s1) /\
    sent (app s1) = [(0, VInt 20, false)] /\
    wanted_value (room s1) = VInt 20 /\
    room._reschedule_timer_cb always (env_override Skip) generic.validate_value
      no_mirror 10 s1 = Some (Ok tt, s2) /\
    sent (app s2) = [(0, VInt 20, false); (0, VInt 20, false)].
Proof.
  eexists. eexists. split; [reflexivity|]. simpl.
  split; [reflexivity|]. split; [reflexivity|]. split; reflexivity.
Qed.

Lemma eval_expr_wraps_plain_values_witness :
  expression.eval_expr (env_override Skip) 1 = Ok (Result (VInt 7)) /\
  exists st',
    scan (env_override Skip) [rule_R1] (initial_run always overrides)
      = (Ok (Some (Obj 0)), st') /\
    heap st' !! 0 = Some (Result (VInt 7)).
Proof.
  apply (eval_expr_wraps_plain_values (env_override Skip) 1 (VInt 7)
           (initial_run always overrides) rule_R1 []); reflexivity.
Defined.

(** * Further properties of the evaluation of schedules *)

(** ** The worklist *)

Lemma py_insert_take_drop {A} (i : nat) (x : A) (l : list A) :
  take (S i) (py_insert i x l) = take i l ++ [x] /\
  drop (S i) (py_insert i x l) = drop i l.
Proof.
  unfold py_insert. destruct (decide (i <= length l)) as [Hle|Hgt].
  - assert (Hlen : length (take i l ++ [x]) = S i).
    { rewrite length_app, length_take_le by exact Hle. simpl. lia. }
    rewrite (cons_middle x (take i l) (drop i l)), app_assoc. split.
    + apply take_app_length'. symmetry. exact Hlen.
    + apply drop_app_length'. symmetry. exact Hlen.
  - rewrite (take_ge l i) by lia. rewrite (drop_ge l i) by lia. split.
    + apply take_ge. rewrite length_app. simpl. lia.
    + apply drop_ge. rewrite length_app. simpl. lia.
Qed.

Lemma insert_paths_closed (ps : list RulePath) (i : nat)
    (path_prefix : RulePath) (rules : list Rule) :
  insert_paths ps i path_prefix rules =
  take i ps ++ List.map (path_add path_prefix) rules ++ drop i ps.
Proof.
  revert ps i. induction rules as [|rule rules IH]; intros ps i; simpl.
  - symmetry. apply take_drop.
  - rewrite IH.
    destruct (py_insert_take_drop i (path_add path_prefix rule) ps) as [-> ->].
    rewrite <- app_assoc. reflexivity.
Qed.

(** X1: [insert_paths] puts one path per rule, in the order of the rules,
    at the given index: the paths before the index and the paths from it on
    keep their order around the new ones, and an index behind the end of the
    list appends them. *)
Theorem insert_paths_splice (ps : list RulePath) (i : nat)
    (path_prefix : RulePath) (rules : list Rule) :
  insert_paths ps i path_prefix rules =
    take i ps ++ List.map (path_add path_prefix) rules ++ drop i ps /\
  length (insert_paths ps i path_prefix rules) = length ps + length rules /\
  (length ps <= i ->
   insert_paths ps i path_prefix rules =
     ps ++ List.map (path_add path_prefix) rules).
Proof.
  pose proof (insert_paths_closed ps i path_prefix rules) as Hclosed.
  split; [exact Hclosed|]. split.
  - rewrite Hclosed, !length_app, length_map.
    rewrite <- (take_drop i ps) at 3. rewrite length_app. lia.
  - intros Hle. rewrite Hclosed.
    rewrite take_ge, drop_ge by exact Hle. rewrite app_nil_r. reflexivity.
Qed.

Lemma skip_shared_drop (path : RulePath) (n : nat) (prefix : list Rule)
    (rest : list RulePath) :
  exists k, skip_shared path n prefix rest = drop k rest.
Proof.
  induction rest as [|p rest IH]; simpl.
  - exists 0. reflexivity.
  - destruct (schedule_eq _ _ && rules_eq _ _).
    + destruct IH as [k Hk]. exists (S k). exact Hk.
    + exists 0. reflexivity.
Qed.

(** The [Break] branch leaves the paths before the cursor alone and keeps a
    tail of the paths from the cursor on. *)
Lemma break_paths_drop (ps : list RulePath) (i : nat) (path : RulePath)
    (levels : Z) :
  i <= length ps ->
  exists k, break_paths ps i path levels = take i ps ++ drop k (drop i ps).
Proof.
  intros Hle.
  pose proof (break_paths_closed (take i ps) (drop i ps) path levels) as H.
  rewrite take_drop, length_take_le in H by exact Hle. simpl in H. rewrite H.
  destruct (skip_shared_drop path
              (Z.to_nat (Z.max 0 (Z.of_nat (length (path_rules path)) - levels)))
              (take (Z.to_nat (Z.max 0 (Z.of_nat (length (path_rules path)) - levels)))
                    (path_rules path))
              (drop i ps)) as [k Hk].
  exists k. rewrite Hk. reflexivity.
Qed.

Lemma list_sum_drop_le (l : list nat) (k : nat) :
  list_sum (drop k l) <= list_sum l.
Proof.
  revert k. induction l as [|x l IH]; intros [|k]; simpl; try lia.
  specialize (IH k). lia.
Qed.

Lemma rule_weight_sub (matches : Rule -> bool) (r : Rule) (sub : Schedule) :
  rule_sub_schedule r = Some sub ->
  rule_weight matches r =
  S (rules_weight matches (List.filter matches (sched_rules sub))).
Proof.
  destruct r as [i e v [s|]]; simpl; [|discriminate].
  intros [= ->]. destruct sub as [j rs]. simpl. f_equal.
  unfold rules_weight. induction rs as [|x rs IH]; simpl; [reflexivity|].
  destruct (matches x); simpl; rewrite IH; reflexivity.
Qed.

Lemma rule_weight_pos (matches : Rule -> bool) (r : Rule) :
  0 < rule_weight matches r.
Proof. destruct r. simpl. lia. Qed.

Section RunInvariants.

Set Default Proof Using "Type".

Variable matches : Rule -> bool.
Variable env : Expr -> Py PyObj.
Variable validate_value : PyVal -> option PyVal.

Abbreviation loop_body := (room.loop_body matches env validate_value).
Abbreviation while_loop := (room.while_loop matches env validate_value).
Abbreviation classify := (room.classify matches validate_value).
Abbreviation path_ok :=
  (fun p : RulePath =>
     path_rules p <> [] /\ Forall (fun r => matches r = true) (path_rules p)).

Lemma insert_paths_ok (ps : list RulePath) (i : nat) (path_prefix : RulePath)
    (rules : list Rule) :
  Forall path_ok ps ->
  Forall (fun r => matches r = true) (path_rules path_prefix) ->
  Forall (fun r => matches r = true) rules ->
  Forall path_ok (insert_paths ps i path_prefix rules).
Proof.
  intros Hps Hprefix Hrules. rewrite insert_paths_closed.
  apply Forall_app. split; [apply Forall_take; exact Hps|].
  apply Forall_app. split; [|apply Forall_drop; exact Hps].
  apply Forall_forall. intros p Hp.
  apply list_elem_of_In, in_map_iff in Hp as (r & <- & Hr).
  simpl. split.
  - intros Hnil. apply app_eq_nil in Hnil as [_ Hnil]. discriminate.
  - apply Forall_app. split; [exact Hprefix|].
    apply Forall_cons. split; [|constructor].
    rewrite Forall_forall in Hrules. apply Hrules, list_elem_of_In. exact Hr.
Qed.

Lemma get_matching_rules_match (sched : Schedule) :
  Forall (fun r => matches r = true) (get_matching_rules matches sched).
Proof.
  apply Forall_forall. intros r Hr.
  apply list_elem_of_In, filter_In in Hr as [_ Hr]. exact Hr.
Qed.

(** *** The scan keeps the store consistent *)

Lemma scan_store (rules : list Rule) (st : Run) :
  cache_ok st ->
  cache_ok (snd (scan env rules st)) /\
  (exists ext, heap (snd (scan env rules st)) = heap st ++ ext) /\
  (forall a, fst (scan env rules st) = Ok (Some (Obj a)) ->
             a < length (heap (snd (scan env rules st)))).
Proof.
  revert st. induction rules as [|rule rules IH]; intros st Hc; simpl.
  - split; [exact Hc|]. split; [exists []; symmetry; apply app_nil_r|].
    intros a [=].
  - destruct (rule_expr rule) as [e|].
    + destruct (expr_cache st !! e) as [c|] eqn:Hlook; simpl.
      * split; [exact Hc|]. split; [exists []; symmetry; apply app_nil_r|].
        intros a [= ->]. apply (Hc e a Hlook).
      * destruct (eval_expr_cases env e st)
          as [(r & Hr & ->)|[(err & Herr & Hex & ->)|(err & Herr & Hex & ->)]];
          simpl.
        -- split; [|split].
           ++ intros e' a. simpl. rewrite length_app. simpl.
              destruct (decide (e = e')) as [->|Hne].
              ** rewrite lookup_insert_eq. intros [= <-]. lia.
              ** rewrite lookup_insert_ne by exact Hne. intros H.
                 apply Hc in H. lia.
           ++ exists [r]. reflexivity.
           ++ intros a [= <-]. rewrite length_app. simpl. lia.
        -- split; [|split].
           ++ intros e' a. simpl.
              destruct (decide (e = e')) as [->|Hne].
              ** rewrite lookup_insert_eq. intros [=].
              ** rewrite lookup_insert_ne by exact Hne. apply Hc.
           ++ exists []. symmetry. apply app_nil_r.
           ++ intros a [=].
        -- split; [|split].
           ++ intros e' a H. apply (Hc e' a H).
           ++ exists []. symmetry. apply app_nil_r.
           ++ intros a [=].
    + destruct (is_None (rule_value rule)); simpl.
      * apply IH. exact Hc.
      * split; [|split].
        -- intros e a H. simpl in *. rewrite length_app. simpl.
           apply Hc in H. lia.
        -- exists [Result (rule_value rule)]. reflexivity.
        -- intros a [= <-]. rewrite length_app. simpl. lia.
Qed.

(** The objects that a scan adds to the store are literals and results of
    expressions. *)
Lemma scan_includes_ok (rules : list Rule) (st : Run) :
  includes_ok env (heap st) ->
  includes_ok env (heap (snd (scan env rules st))).
Proof.
  unfold includes_ok.
  revert st. induction rules as [|rule rules IH]; intros st Hh; simpl;
    [exact Hh|].
  destruct (rule_expr rule) as [e|].
  - destruct (expr_cache st !! e) as [c|]; simpl; [exact Hh|].
    unfold room.eval_expr, expression.eval_expr.
    destruct (env e) as [[v|r]|err] eqn:He; simpl.
    + apply Forall_app. split; [exact Hh|].
      constructor; [discriminate|constructor].
    + apply Forall_app. split; [exact Hh|].
      constructor; [|constructor]. intros _. exists e. exact He.
    + destruct (isinstance_Exception err); simpl; exact Hh.
  - destruct (is_None (rule_value rule)); simpl; [apply IH; exact Hh|].
    apply Forall_app. split; [exact Hh|].
    constructor; [discriminate|constructor].
Qed.

(** An exception leaves a scan only when an expression raised it and it
    does not derive from [Exception]. *)
Lemma scan_raises (rules : list Rule) (st : Run) (err : Exception) :
  fst (scan env rules st) = Raise err ->
  exists e, env e = Raise err /\ isinstance_Exception err = false.
Proof.
  revert st. induction rules as [|rule rules IH]; intros st; simpl;
    [discriminate|].
  destruct (rule_expr rule) as [e|].
  - destruct (expr_cache st !! e) as [c|]; simpl; [discriminate|].
    destruct (eval_expr_cases env e st)
      as [(r & Hr & ->)|[(err' & Herr & Hex & ->)|(err' & Herr & Hex & ->)]];
      simpl; try discriminate.
    intros [= <-]. exists e. split; [|exact Hex].
    unfold expression.eval_expr in Herr.
    destruct (env e) as [[v|r]|err0]; congruence.
  - destruct (is_None (rule_value rule)); simpl; [apply IH|discriminate].
Qed.

(** *** The branches after the scan *)

Lemma py_add_Ok (x y s : PyVal) : py_add x y = Ok s -> s <> VNone.
Proof.
  unfold py_add. destruct x, y; simpl; intros [= <-]; discriminate.
Qed.

Lemma py_add_Raise (x y : PyVal) (e : Exception) :
  py_add x y = Raise e -> e = TypeError.
Proof.
  unfold py_add. destruct x, y; simpl; intros [= <-]; reflexivity.
Qed.

Lemma is_None_false (v : PyVal) : is_None v = false -> v <> VNone.
Proof. destruct v; [discriminate|..]; intros _; discriminate. Qed.

Lemma check_final_ok (last_rule : Rule) (st : Run) :
  matches last_rule = true ->
  rule_sub_schedule last_rule = None ->
  paths_ok matches st -> cache_ok st ->
  includes_ok env (heap st) ->
  (forall b, result st = Some b ->
     exists v, v <> VNone /\
       (heap st !! b = Some (Result v) \/ heap st !! b = Some (Add v))) ->
  flow_ok matches env (path_idx st) (work matches st) (check_final last_rule st).
Proof.
  intros Hm Hsub Hp Hc Hinc Hacc. unfold check_final.
  destruct (result st) as [b|] eqn:Hres.
  - destruct (Hacc b eq_refl) as (v & Hv & [Hb|Hb]); rewrite Hb.
    + simpl. auto.
    + simpl. split; [|split; [exact Hinc|split; [reflexivity|]]].
      * split; [exact Hp|]. split; [exact Hc|].
        intros b' Hb'. rewrite Hres in Hb'. injection Hb' as <-. eauto.
      * intros _. lia.
  - simpl. split; [|split; [exact Hinc|split; [reflexivity|]]].
    + split; [exact Hp|]. split; [exact Hc|].
      intros b' Hb'. rewrite Hres in Hb'. discriminate.
    + intros _. lia.
Qed.

Lemma fold_addible_ok (last_rule : Rule) (a : nat) (obj : ResultObj)
    (st : Run) :
  matches last_rule = true ->
  rule_sub_schedule last_rule = None ->
  run_ok matches st ->
  includes_ok env (heap st) ->
  heap st !! a = Some obj ->
  isinstance obj AddibleMixinT = true ->
  flow_ok matches env (path_idx st) (work matches st)
          (fold_addible validate_value last_rule a obj st).
Proof.
  intros Hm Hsub (Hp & Hc & Hacc) Hinc Ha Hadd.
  assert (Hlt : a < length (heap st)) by (apply lookup_lt_Some in Ha; exact Ha).
  rewrite isinstance_AddibleMixin in Hadd.
  unfold fold_addible.
  assert (Hobj : exists v0, get_value obj = Some v0 /\
            forall w, set_value_attr obj w = Result w \/ set_value_attr obj w = Add w).
  { destruct obj; try discriminate; eexists; (split; [reflexivity|]);
      intros w; simpl; auto. }
  destruct Hobj as (v0 & Hv0 & Hset). rewrite Hv0.
  set (value := _validate_value validate_value v0).
  destruct (is_None value) eqn:Hnone.
  { simpl. split; [repeat split; assumption|]. split; [exact Hinc|].
    split; [reflexivity|]. intros _. lia. }
  apply is_None_false in Hnone.
  set (heap1 := <[a := set_value_attr obj value]> (heap st)).
  assert (Hinc1 : includes_ok env heap1).
  { apply Forall_insert; [exact Hinc|].
    destruct (Hset value) as [-> | ->]; discriminate. }
  assert (Ha1 : heap1 !! a = Some (set_value_attr obj value)).
  { apply list_lookup_insert_eq. exact Hlt. }
  assert (Hc1 : forall e a', expr_cache st !! e = Some (Obj a') ->
                             a' < length heap1).
  { intros e a' H. unfold heap1. rewrite length_insert. apply (Hc e a' H). }
  simpl. destruct (result st) as [b|] eqn:Hres.
  - destruct (Hacc b Hres) as (x & Hb).
    assert (Hb1 : exists x', heap1 !! b = Some (Add x')).
    { destruct (decide (a = b)) as [<-|Hne].
      - rewrite Ha1. rewrite Ha in Hb. injection Hb as ->. simpl. eauto.
      - unfold heap1. rewrite list_lookup_insert_ne by exact Hne. eauto. }
    destruct Hb1 as (x' & Hb1). fold heap1. rewrite Hb1, Ha1.
    rewrite result_add_Add. unfold Add_add.
    assert (Hi : isinstance (set_value_attr obj value) AddibleMixinT = true).
    { rewrite isinstance_AddibleMixin. destruct (Hset value) as [-> | ->]; reflexivity. }
    rewrite Hi. simpl negb. cbv iota.
    assert (Hg : get_value (set_value_attr obj value) = Some value).
    { destruct (Hset value) as [-> | ->]; reflexivity. }
    rewrite Hg. simpl get_value. cbv iota.
    destruct (py_add x' value) as [s|err] eqn:Hsum; simpl.
    + apply py_add_Ok in Hsum.
      assert (Hnew : exists sum,
                new_addible (type_of (set_value_attr obj value)) s = Ok sum /\
                (sum = Result s \/ sum = Add s)).
      { destruct (Hset value) as [-> | ->]; simpl; eauto. }
      destruct Hnew as (sum & -> & Hsum').
      pose proof (check_final_ok last_rule
                    (with_result (with_heap (with_heap st heap1) (heap1 ++ [sum]))
                                 (Some (length heap1))) Hm Hsub) as Hcf.
      simpl in Hcf. apply Hcf; clear Hcf.
      * exact Hp.
      * intros e a' H. simpl in *. rewrite length_app. simpl.
        specialize (Hc1 e a' H). lia.
      * apply Forall_app. split; [exact Hinc1|].
        constructor; [|constructor]. destruct Hsum' as [-> | ->]; discriminate.
      * intros b' [= <-]. exists s. split; [exact Hsum|].
        rewrite lookup_app_r by lia. rewrite Nat.sub_diag. simpl.
        destruct Hsum' as [-> | ->]; auto.
    + apply py_add_Raise in Hsum. subst err. simpl.
      split; [|split; [exact Hinc1|split; [reflexivity|]]].
      * split; [exact Hp|]. split; [exact Hc1|].
        intros b' Hb'. simpl in Hb'. rewrite Hres in Hb'. injection Hb' as <-.
        simpl. eauto.
      * intros _. unfold work. simpl. lia.
  - pose proof (check_final_ok last_rule
                  (with_result (with_heap st heap1) (Some a)) Hm Hsub) as Hcf.
    simpl in Hcf. apply Hcf; clear Hcf.
    + exact Hp.
    + exact Hc1.
    + exact Hinc1.
    + intros b' [= <-]. exists value. split; [exact Hnone|].
      fold heap1. rewrite Ha1. destruct (Hset value) as [-> | ->]; auto.
Qed.

Lemma list_sum_map_drop_le {A} (f : A -> nat) (l : list A) (k : nat) :
  list_sum (List.map f (drop k l)) <= list_sum (List.map f l).
Proof.
  revert k. induction l as [|x l IH]; intros [|k]; simpl; try lia.
  specialize (IH k). lia.
Qed.

Lemma classify_ok (path : RulePath) (last_rule : Rule)
    (_result : option EvalOut) (st : Run) :
  matches last_rule = true ->
  rule_sub_schedule last_rule = None ->
  run_ok matches st ->
  includes_ok env (heap st) ->
  (forall a, _result = Some (Obj a) -> a < length (heap st)) ->
  path_idx st <= length (paths st) ->
  flow_ok matches env (path_idx st) (work matches st)
          (classify path last_rule _result st).
Proof.
  intros Hm Hsub Hok Hinc Hres Hidx.
  assert (Hstay : flow_ok matches env (path_idx st) (work matches st) (Next st)).
  { simpl. split; [exact Hok|]. split; [exact Hinc|]. split; [reflexivity|].
    intros _. lia. }
  unfold room.classify. destruct _result as [[a|err]|]; [|exact Hstay|exact Hstay].
  specialize (Hres a eq_refl).
  destruct (lookup_lt_is_Some_2 _ _ Hres) as [obj Ha]. rewrite Ha.
  destruct (isinstance obj AddibleMixinT) eqn:Hadd.
  { apply fold_addible_ok; assumption. }
  rewrite isinstance_Abort, isinstance_Break, isinstance_IncludeSchedule.
  destruct Hok as (Hp & Hc & Hacc).
  assert (Hfrom : is_include obj = true -> exists e, env e = Ok (Res obj)).
  { pose proof Hinc as H. unfold includes_ok in H. rewrite Forall_lookup in H.
    apply (H a obj Ha). }
  destruct obj as [v| |v|levels|[sched|other]|]; try discriminate Hadd.
  - simpl. exact I.
  - destruct (break_paths_drop (paths st) (path_idx st) path levels Hidx)
      as [k Hk].
    simpl. split; [|split; [exact Hinc|split; [reflexivity|]]].
    + split; [|split; [exact Hc | exact Hacc]].
      unfold paths_ok. simpl. rewrite Hk.
      apply Forall_app. split; [apply Forall_take; exact Hp|].
      apply Forall_drop, Forall_drop. exact Hp.
    + intros _. unfold work. simpl. rewrite Hk.
      rewrite drop_app_length' by (rewrite length_take_le; [reflexivity|exact Hidx]).
      apply list_sum_map_drop_le.
  - simpl. split; [|split; [exact Hinc|split; [reflexivity|]]].
    + split; [|split; [exact Hc | exact Hacc]].
      unfold paths_ok. simpl. apply insert_paths_ok.
      * exact Hp.
      * constructor.
      * apply get_matching_rules_match.
    + intros Hni. exfalso. destruct (Hfrom eq_refl) as [e He].
      apply (Hni e _ He).
  - simpl. right. split; [reflexivity|].
    destruct (Hfrom eq_refl) as [e He]. exists e, other. exact He.
  - exact Hstay.
Qed.

Lemma children_weight (path : RulePath) (l : list Rule) :
  list_sum (List.map (path_weight matches) (List.map (path_add path) l)) =
  rules_weight matches l.
Proof.
  unfold rules_weight. induction l as [|r l IH]; simpl; [reflexivity|].
  rewrite IH. unfold path_weight at 1. simpl. rewrite last_snoc. reflexivity.
Qed.

(** One pass of the loop keeps the invariants, moves the cursor by one and,
    when no schedule is included, leaves less work than it found. *)
Lemma loop_body_ok (st : Run) :
  run_ok matches st ->
  includes_ok env (heap st) ->
  path_idx st < length (paths st) ->
  0 < work matches st /\
  flow_ok matches env (S (path_idx st)) (pred (work matches st)) (loop_body st).
Proof.
  intros (Hp & Hc & Hacc) Hinc Hidx.
  destruct (lookup_lt_is_Some_2 _ _ Hidx) as [path Hpath].
  pose proof Hp as Hpok. unfold paths_ok in Hpok.
  rewrite Forall_lookup in Hpok. destruct (Hpok _ _ Hpath) as [Hne Hmatch].
  destruct (proj2 (last_is_Some (path_rules path)) Hne) as [last_rule Hlast].
  assert (Hmlast : matches last_rule = true).
  { rewrite Forall_forall in Hmatch. apply Hmatch.
    apply last_Some_elem_of. exact Hlast. }
  assert (Hwork : work matches st =
            rule_weight matches last_rule +
            list_sum (List.map (path_weight matches)
                        (drop (S (path_idx st)) (paths st)))).
  { unfold work. rewrite (drop_S _ _ _ Hpath). simpl.
    unfold path_weight at 1. rewrite Hlast. reflexivity. }
  pose proof (rule_weight_pos matches last_rule) as Hpos.
  split; [lia|].
  unfold room.loop_body. rewrite Hpath, Hlast.
  destruct (rule_sub_schedule last_rule) as [sub|] eqn:Hsub.
  - simpl. split; [|split; [exact Hinc|split; [reflexivity|]]].
    + split; [|split; [exact Hc | exact Hacc]].
      unfold paths_ok. simpl. apply insert_paths_ok.
      * exact Hp.
      * exact Hmatch.
      * apply get_matching_rules_match.
    + intros _.
      rewrite (rule_weight_sub matches last_rule sub Hsub) in Hwork.
      rewrite Hwork. unfold work. simpl. rewrite insert_paths_closed.
      rewrite drop_app_length' by (rewrite length_take_le; [reflexivity|lia]).
      rewrite map_app, list_sum_app.
      rewrite children_weight. unfold get_matching_rules. lia.
  - pose proof (scan_frame env (reverse (rules_with_expr_or_value path))
                  (advance st)) as Hframe.
    pose proof (scan_store (reverse (rules_with_expr_or_value path))
                  (advance st) Hc) as Hstore.
    pose proof (scan_includes_ok (reverse (rules_with_expr_or_value path))
                  (advance st) Hinc) as Hinc2.
    pose proof (scan_raises (reverse (rules_with_expr_or_value path))
                  (advance st)) as Hraise.
    destruct (scan env (reverse (rules_with_expr_or_value path)) (advance st))
      as [[_result|err] st2] eqn:Hscan;
      simpl in Hframe, Hstore, Hinc2, Hraise;
      [|left; apply Hraise; reflexivity].
    destruct Hframe as (Hp2 & Hi2 & Hr2).
    destruct Hstore as (Hc2 & (ext & Hext) & Hout).
    assert (Hok2 : run_ok matches st2).
    { split; [unfold paths_ok; rewrite Hp2; exact Hp|]. split; [exact Hc2|].
      intros b Hb. rewrite Hr2 in Hb. destruct (Hacc b Hb) as (x & Hx).
      exists x. rewrite Hext. apply lookup_app_l_Some. exact Hx. }
    assert (Hw2 : work matches st2 <= pred (work matches st)).
    { rewrite Hwork. unfold work. rewrite Hp2, Hi2. lia. }
    pose proof (classify_ok path last_rule _result st2 Hmlast Hsub Hok2 Hinc2)
      as Hcl.
    rewrite Hi2 in Hcl.
    assert (Hgoal : flow_ok matches env (S (path_idx st)) (work matches st2)
                      (classify path last_rule _result st2)).
    { apply Hcl.
      - intros a [= ->]. apply Hout. reflexivity.
      - rewrite Hp2. lia. }
    destruct (classify path last_rule _result st2); simpl in *; [|exact Hgoal|exact Hgoal].
    destruct Hgoal as (H1 & H2 & H3 & H4). split; [exact H1|]. split; [exact H2|].
    split; [exact H3|]. intros Hl. specialize (H4 Hl). lia.
Qed.

Lemma initial_run_ok (sched : Schedule) : run_ok matches (initial_run matches sched).
Proof.
  split; [|split].
  - unfold paths_ok. simpl. apply insert_paths_ok.
    + constructor.
    + constructor.
    + apply get_matching_rules_match.
  - intros e a H. simpl in H. rewrite lookup_empty in H. discriminate.
  - intros b H. discriminate.
Qed.

Lemma initial_run_work (sched : Schedule) :
  work matches (initial_run matches sched) =
  rules_weight matches (get_matching_rules matches sched).
Proof.
  unfold work. simpl. rewrite insert_paths_closed. simpl.
  rewrite app_nil_r. apply children_weight.
Qed.

(** A run that ends returns what [return_ok] allows, or ends with an
    exception of [escapes]. *)
Lemma while_loop_returns (fuel : nat) (st st' : Run)
    (res : Py (option (PyVal * Rule))) :
  run_ok matches st ->
  includes_ok env (heap st) ->
  while_loop fuel st = Some (res, st') ->
  match res with
  | Ok r => return_ok matches r
  | Raise err => escapes env err
  end.
Proof.
  revert st. induction fuel as [|fuel IH]; intros st Hok Hinc; simpl;
    [discriminate|].
  destruct (bool_decide (path_idx st < length (paths st))) eqn:Hidx.
  - apply bool_decide_eq_true_1 in Hidx.
    destruct (loop_body_ok st Hok Hinc Hidx) as [_ Hflow].
    destruct (loop_body st) as [st1|r st1|err st1]; simpl in Hflow.
    + apply IH; apply Hflow.
    + intros [= <- _]. exact Hflow.
    + intros [= <- _]. exact Hflow.
  - intros [= <- _]. exact I.
Qed.

(** Without included schedules, the loop ends within as many passes as there
    is work, plus the one that finds the worklist exhausted. *)
Lemma while_loop_ends (fuel : nat) (st : Run) :
  never_includes env ->
  run_ok matches st ->
  includes_ok env (heap st) ->
  work matches st < fuel ->
  exists res st', while_loop fuel st = Some (res, st').
Proof.
  intros Hni. revert st. induction fuel as [|fuel IH]; intros st Hok Hinc Hw;
    [lia|].
  simpl. destruct (bool_decide (path_idx st < length (paths st))) eqn:Hidx;
    [|eauto].
  apply bool_decide_eq_true_1 in Hidx.
  destruct (loop_body_ok st Hok Hinc Hidx) as [Hpos Hflow].
  destruct (loop_body st) as [st1|r st1|err st1]; simpl in Hflow; [|eauto|eauto].
  destruct Hflow as (Hok1 & Hinc1 & _ & Hw1).
  specialize (Hw1 Hni).
  apply IH; [exact Hok1 | exact Hinc1 | lia].
Qed.

Lemma escapes_ordinary :
  raises_exceptions_only env ->
  (forall e other, env e <> Ok (Res (IncludeSchedule (inr other)))) ->
  forall err, ~ escapes env err.
Proof.
  intros Hexc Hinc err [(e & He & Hex)|(_ & e & other & He)].
  - rewrite (Hexc e err He) in Hex. discriminate.
  - apply (Hinc e other He).
Qed.

(** X2: only two kinds of exception leave [eval_schedule]: one that an
    expression raised and that does not derive from [Exception], which
    [Room.eval_expr] does not catch, and the [AttributeError] for an
    [IncludeSchedule] result that holds no schedule.  When the expressions
    give neither, a run that ends ends by returning, whatever else the
    expressions raise or return, whatever the validator rejects and
    whatever cannot be added.  Both kinds do leave it: so ends the run of a
    schedule whose first valid rule, not a sub-schedule rule, has such an
    expression. *)
Theorem eval_schedule_escaping_exceptions :
  (forall fuel sched err,
     eval_schedule matches env validate_value fuel sched = Some (Raise err) ->
     (exists e, env e = Raise err /\ isinstance_Exception err = false) \/
     (err = AttributeError /\
      exists e other, env e = Ok (Res (IncludeSchedule (inr other))))) /\
  (raises_exceptions_only env ->
   (forall e other, env e <> Ok (Res (IncludeSchedule (inr other)))) ->
   forall fuel sched res,
     eval_schedule matches env validate_value fuel sched = Some res ->
     exists r, res = Ok r) /\
  (forall n sched rule rest e err,
     get_matching_rules matches sched = rule :: rest ->
     rule_sub_schedule rule = None -> rule_expr rule = Some e ->
     env e = Raise err -> isinstance_Exception err = false ->
     eval_schedule matches env validate_value (S n) sched = Some (Raise err)) /\
  (forall n sched rule rest e other,
     get_matching_rules matches sched = rule :: rest ->
     rule_sub_schedule rule = None -> rule_expr rule = Some e ->
     env e = Ok (Res (IncludeSchedule (inr other))) ->
     eval_schedule matches env validate_value (S n) sched
       = Some (Raise AttributeError)).
Proof.
  assert (Hends : forall fuel sched res,
            eval_schedule matches env validate_value fuel sched = Some res ->
            match res with
            | Ok r => return_ok matches r
            | Raise err => escapes env err
            end).
  { intros fuel sched res. unfold eval_schedule, eval_schedule_run.
    destruct (while_loop fuel (initial_run matches sched)) as [[res' st']|]
      eqn:Hrun; [|discriminate].
    intros [= <-].
    apply (while_loop_returns fuel _ _ _ (initial_run_ok sched)
             (Forall_nil_2 _) Hrun). }
  split; [|split; [|split]].
  - intros fuel sched err Hrun. apply (Hends _ _ _ Hrun).
  - intros Hexc Hinc fuel sched [r|err] Hrun; [exists r; reflexivity|].
    destruct (escapes_ordinary Hexc Hinc err (Hends _ _ _ Hrun)).
  - intros n sched rule rest e err Hm Hsub Hexpr Henv Hex.
    unfold eval_schedule, eval_schedule_run, initial_run. rewrite Hm.
    rewrite insert_paths_closed. simpl.
    unfold room.loop_body. simpl. rewrite Hsub.
    unfold rules_with_expr_or_value. simpl. rewrite Hexpr. simpl.
    rewrite Hexpr. rewrite lookup_empty.
    unfold room.eval_expr, expression.eval_expr. rewrite Henv, Hex.
    reflexivity.
  - intros n sched rule rest e other Hm Hsub Hexpr Henv.
    unfold eval_schedule, eval_schedule_run, initial_run. rewrite Hm.
    rewrite insert_paths_closed. simpl.
    unfold room.loop_body. simpl. rewrite Hsub.
    unfold rules_with_expr_or_value. simpl. rewrite Hexpr. simpl.
    rewrite Hexpr. rewrite lookup_empty.
    unfold room.eval_expr, expression.eval_expr. rewrite Henv.
    reflexivity.
Qed.

(** X3: when no expression evaluates to an [IncludeSchedule], the loop of
    [eval_schedule] ends within one pass per valid rule, counted through the
    nested sub-schedules, and one more; the run then returns, unless an
    expression raised an exception that does not derive from [Exception]. *)
Theorem eval_schedule_terminates (fuel : nat) (sched : Schedule) :
  never_includes env ->
  rules_weight matches (get_matching_rules matches sched) < fuel ->
  exists res,
    eval_schedule matches env validate_value fuel sched = Some res /\
    (raises_exceptions_only env -> exists r, res = Ok r).
Proof.
  intros Hni Hfuel.
  destruct (while_loop_ends fuel (initial_run matches sched) Hni
              (initial_run_ok sched)) as (res & st' & Hrun).
  - constructor.
  - rewrite initial_run_work. exact Hfuel.
  - exists res. split.
    + unfold eval_schedule, eval_schedule_run. rewrite Hrun. reflexivity.
    + intros Hexc.
      pose proof (while_loop_returns fuel _ _ _ (initial_run_ok sched)
                    (Forall_nil_2 _) Hrun) as Hres.
      destruct res as [r|err]; [exists r; reflexivity|].
      destruct (escapes_ordinary Hexc (fun e other => Hni e (inr other)) err Hres).
Qed.

(** X4: a value that [eval_schedule] returns is never [None], and the rule
    returned with it is valid at the time of the evaluation and is not a
    sub-schedule rule. *)
Theorem eval_schedule_returns_valid (fuel : nat) (sched : Schedule)
    (v : PyVal) (rule : Rule) :
  eval_schedule matches env validate_value fuel sched = Some (Ok (Some (v, rule))) ->
  v <> VNone /\ matches rule = true /\ rule_sub_schedule rule = None.
Proof.
  unfold eval_schedule, eval_schedule_run.
  destruct (while_loop fuel (initial_run matches sched)) as [[res' st']|] eqn:Hrun;
    [|discriminate].
  intros [= ->].
  apply (while_loop_returns fuel _ _ _ (initial_run_ok sched)
           (Forall_nil_2 _) Hrun).
Qed.

End RunInvariants.

(** ** Whole runs *)

Section WholeRuns.

Set Default Proof Using "Type".

Variable matches : Rule -> bool.
Variable env : Expr -> Py PyObj.
Variable validate_value : PyVal -> option PyVal.

Abbreviation eval_schedule := (room.eval_schedule matches env validate_value).
Abbreviation loop_body := (room.loop_body matches env validate_value).
Abbreviation while_loop := (room.while_loop matches env validate_value).

(** X5: the first valid rule of a schedule that carries a literal and no
    expression decides: when the validator accepts the literal, the run
    returns the validated value with that rule in its first pass, whatever
    follows the rule. *)
Theorem first_literal_rule_wins (n : nat) (sched : Schedule) (r : Rule)
    (rest : list Rule) (v' : PyVal) :
  get_matching_rules matches sched = r :: rest ->
  rule_sub_schedule r = None ->
  rule_expr r = None ->
  is_None (rule_value r) = false ->
  validate_value (rule_value r) = Some v' ->
  is_None v' = false ->
  eval_schedule (S n) sched = Some (Ok (Some (v', r))).
Proof.
  intros Hm Hsub Hexpr Hval Hvalid Hv'.
  unfold room.eval_schedule, eval_schedule_run, initial_run. rewrite Hm.
  rewrite insert_paths_closed. simpl.
  unfold room.loop_body. simpl. rewrite Hsub.
  unfold rules_with_expr_or_value. simpl. rewrite Hexpr, Hval. simpl.
  rewrite Hexpr, Hval. simpl.
  unfold fold_addible, _validate_value. simpl. rewrite Hvalid, Hv'. simpl.
  reflexivity.
Qed.

(** X6: the literal of a sub-schedule rule is the default of the rules
    below it: a nested rule without expression and literal of its own
    resolves to the validated literal of the enclosing rule, and it is the
    nested rule that is returned. *)
Theorem sub_schedule_value_is_default (n : nat) (sched sub : Schedule)
    (outer inner : Rule) (rest rest' : list Rule) (v' : PyVal) :
  get_matching_rules matches sched = outer :: rest ->
  rule_sub_schedule outer = Some sub ->
  rule_expr outer = None ->
  is_None (rule_value outer) = false ->
  get_matching_rules matches sub = inner :: rest' ->
  rule_sub_schedule inner = None ->
  rule_expr inner = None ->
  rule_value inner = VNone ->
  validate_value (rule_value outer) = Some v' ->
  is_None v' = false ->
  eval_schedule (S (S n)) sched = Some (Ok (Some (v', inner))).
Proof.
  intros Hm Hsub Hexpr Hval Hm' HsubF HexprF HvalF Hvalid Hv'.
  unfold room.eval_schedule, eval_schedule_run, initial_run. rewrite Hm.
  rewrite insert_paths_closed. simpl.
  unfold room.loop_body at 1. simpl. rewrite Hsub. rewrite Hm'.
  rewrite insert_paths_closed. simpl.
  unfold room.loop_body. simpl. rewrite HsubF.
  unfold rules_with_expr_or_value. simpl.
  rewrite Hexpr, Hval, HexprF, HvalF. simpl.
  rewrite Hexpr, Hval. simpl.
  unfold fold_addible, _validate_value. simpl. rewrite Hvalid, Hv'. simpl.
  reflexivity.
Qed.

(** X7: results add up across the rules of one level: when the first valid
    rule yields [Add(x)] and the second yields [Result(y)] (or the plain
    value [y]), the run returns the sum of the validated payloads with the
    second rule. *)
Theorem accumulated_values_add (n : nat) (sched : Schedule) (r1 r2 : Rule)
    (rest : list Rule) (e1 e2 : Expr) (x y x' y' s : PyVal) :
  get_matching_rules matches sched = r1 :: r2 :: rest ->
  rule_sub_schedule r1 = None -> rule_sub_schedule r2 = None ->
  rule_expr r1 = Some e1 -> rule_expr r2 = Some e2 ->
  expression.eval_expr env e1 = Ok (Add x) ->
  expression.eval_expr env e2 = Ok (Result y) ->
  validate_value x = Some x' -> is_None x' = false ->
  validate_value y = Some y' -> is_None y' = false ->
  py_add x' y' = Ok s ->
  eval_schedule (S (S n)) sched = Some (Ok (Some (s, r2))).
Proof.
  intros Hm Hsub1 Hsub2 He1 He2 Hev1 Hev2 Hx Hx' Hy Hy' Hsum.
  assert (Hne : e1 <> e2) by (intros ->; rewrite Hev1 in Hev2; discriminate).
  unfold room.eval_schedule, eval_schedule_run, initial_run. rewrite Hm.
  rewrite insert_paths_closed. simpl.
  unfold room.loop_body at 1. simpl. rewrite Hsub1.
  unfold rules_with_expr_or_value. simpl. rewrite He1. simpl. rewrite He1.
  rewrite lookup_empty. unfold room.eval_expr. rewrite Hev1. simpl.
  unfold fold_addible at 1, _validate_value. simpl. rewrite Hx, Hx'. simpl.
  unfold room.loop_body. simpl. rewrite Hsub2.
  unfold rules_with_expr_or_value. simpl. rewrite He2. simpl. rewrite He2.
  rewrite lookup_insert_ne by exact Hne. rewrite lookup_empty.
  unfold room.eval_expr. rewrite Hev2. simpl.
  unfold fold_addible, _validate_value. simpl. rewrite Hy, Hy'. simpl.
  rewrite result_add_Add. unfold Add_add. simpl.
  rewrite Hsum. simpl.
  reflexivity.
Qed.

(** *** Schedules that give nothing *)

Lemma scan_silent (rules : list Rule) (st : Run) :
  quiet env -> no_literals matches ->
  Forall (fun r => matches r = true) rules ->
  Forall (fun o => o = Skip) (heap st) ->
  Forall (fun o => o = Skip) (heap (snd (scan env rules st))).
Proof.
  intros Hq Hnl. revert st.
  induction rules as [|rule rules IH]; intros st Hrules Hh; simpl; [exact Hh|].
  apply Forall_cons in Hrules as [Hrule Hrules].
  destruct (rule_expr rule) as [e|].
  - destruct (expr_cache st !! e) as [c|]; simpl; [exact Hh|].
    unfold room.eval_expr, expression.eval_expr.
    destruct (Hq e) as [-> | (err & -> & ->)]; simpl; [|exact Hh].
    apply Forall_app. split; [exact Hh|]. repeat constructor.
  - rewrite (Hnl rule Hrule). simpl. apply IH; assumption.
Qed.

Lemma loop_body_silent (st : Run) :
  quiet env -> no_literals matches ->
  run_ok matches st -> silent st ->
  path_idx st < length (paths st) ->
  exists st', loop_body st = Next st' /\ run_ok matches st' /\ silent st'.
Proof.
  intros Hq Hnl Hok [Hh Hres] Hidx.
  assert (Hinc : includes_ok env (heap st)).
  { eapply Forall_impl; [exact Hh|]. intros o ->. discriminate. }
  destruct (loop_body_ok matches env validate_value st Hok Hinc Hidx)
    as [_ Hflow].
  assert (Hgoal : exists st', loop_body st = Next st' /\ silent st').
  { destruct Hok as (Hp & Hc & _).
    destruct (lookup_lt_is_Some_2 _ _ Hidx) as [path Hpath].
    unfold paths_ok in Hp. rewrite Forall_lookup in Hp.
    destruct (Hp _ _ Hpath) as [Hne Hmatch].
    destruct (proj2 (last_is_Some (path_rules path)) Hne) as [last_rule Hlast].
    unfold room.loop_body. rewrite Hpath, Hlast.
    destruct (rule_sub_schedule last_rule) as [sub|].
    { eexists. split; [reflexivity|]. split; assumption. }
    pose proof (scan_frame env (reverse (rules_with_expr_or_value path))
                  (advance st)) as Hframe.
    pose proof (scan_store env
                  (reverse (rules_with_expr_or_value path)) (advance st) Hc)
      as Hstore.
    pose proof (scan_silent (reverse (rules_with_expr_or_value path))
                  (advance st) Hq Hnl) as Hsil.
    pose proof (scan_raises env (reverse (rules_with_expr_or_value path))
                  (advance st)) as Hraise.
    destruct (scan env (reverse (rules_with_expr_or_value path)) (advance st))
      as [[_result|err] st2] eqn:Hscan;
      simpl in Hframe, Hstore, Hsil, Hraise.
    2:{ destruct (Hraise err eq_refl) as (e & He & Hex).
        destruct (Hq e) as [Hskip | (err' & Herr & Hex')]; [congruence|].
        rewrite He in Herr. injection Herr as <-. congruence. }
    destruct Hframe as (_ & _ & Hr2). destruct Hstore as (_ & _ & Hout).
    assert (Hh2 : Forall (fun o => o = Skip) (heap st2)).
    { apply Hsil; [|exact Hh]. apply Forall_reverse.
      unfold rules_with_expr_or_value. apply Forall_forall. intros r Hr.
      apply list_elem_of_In, filter_In in Hr as [Hr _].
      rewrite Forall_forall in Hmatch. apply Hmatch, list_elem_of_In. exact Hr. }
    exists st2. split; [|split; [exact Hh2 | rewrite Hr2; exact Hres]].
    unfold room.classify. destruct _result as [[a|err]|]; try reflexivity.
    destruct (lookup_lt_is_Some_2 _ _ (Hout a eq_refl)) as [obj Ha]. rewrite Ha.
    rewrite Forall_lookup in Hh2. rewrite (Hh2 _ _ Ha). reflexivity. }
  destruct Hgoal as (st' & Hbody & Hsil). exists st'.
  rewrite Hbody in Hflow. simpl in Hflow. destruct Hflow as [Hok' _].
  auto.
Qed.

(** X8: when every expression evaluates to [Skip] or raises an exception
    that derives from [Exception], and no valid rule carries a literal, a
    run of [eval_schedule] that ends returns [None]. *)
Theorem skipping_schedule_gives_none (fuel : nat) (sched : Schedule)
    (res : Py (option (PyVal * Rule))) :
  quiet env -> no_literals matches ->
  eval_schedule fuel sched = Some res ->
  res = Ok None.
Proof.
  intros Hq Hnl. unfold room.eval_schedule, eval_schedule_run.
  assert (Hloop : forall st st' r,
            run_ok matches st -> silent st ->
            while_loop fuel st = Some (r, st') -> r = Ok None).
  { induction fuel as [|fuel' IH]; intros st st' r Hok Hsil; simpl;
      [discriminate|].
    destruct (bool_decide (path_idx st < length (paths st))) eqn:Hidx.
    - apply bool_decide_eq_true_1 in Hidx.
      destruct (loop_body_silent st Hq Hnl Hok Hsil Hidx)
        as (st1 & -> & Hok1 & Hsil1).
      apply IH; assumption.
    - intros [= <- _]. reflexivity. }
  destruct (while_loop fuel (initial_run matches sched)) as [[r st']|] eqn:Hrun;
    [|discriminate].
  intros [= <-]. apply (Hloop _ _ _ (initial_run_ok matches sched)) in Hrun;
    [exact Hrun|].
  split; [constructor | reflexivity].
Qed.

(** *** A schedule that includes itself *)

Lemma replicate_snoc {A} (k : nat) (x : A) :
  replicate k x ++ [x] = replicate (S k) x.
Proof. induction k as [|k IH]; simpl; [reflexivity|]. rewrite IH. reflexivity. Qed.

Lemma py_insert_replicate {A} (k : nat) (x : A) :
  py_insert k x (replicate k x) = replicate (S k) x.
Proof.
  unfold py_insert. rewrite take_ge, drop_ge by (rewrite length_replicate; lia).
  apply replicate_snoc.
Qed.

(** X9: a schedule whose only rule has an expression that evaluates to
    [IncludeSchedule] of the schedule itself never comes back from
    [eval_schedule]: every pass takes the cached result and inserts the rule
    again behind the cursor. *)
Theorem self_including_schedule_never_returns (fuel sid rid : nat) (e : Expr)
    (v : PyVal) :
  matches (mkRule rid (Some e) v None) = true ->
  env e = Ok (Res (IncludeSchedule
                     (inl (mkSchedule sid [mkRule rid (Some e) v None])))) ->
  eval_schedule fuel (mkSchedule sid [mkRule rid (Some e) v None]) = None.
Proof.
  intros Hm He.
  set (r := mkRule rid (Some e) v None) in *.
  set (sched := mkSchedule sid [r]) in *.
  set (P := mkRulePath sched [r]).
  assert (Hgm : get_matching_rules matches sched = [r]).
  { unfold get_matching_rules. simpl. rewrite Hm. reflexivity. }
  assert (Hloop : forall n k,
            while_loop n (mkRun (replicate (S k) P) k None (<[e := Obj 0]> ∅)
                                [IncludeSchedule (inl sched)] [e]) = None).
  { assert (Hpass : forall k,
              loop_body (mkRun (replicate (S k) P) k None (<[e := Obj 0]> ∅)
                               [IncludeSchedule (inl sched)] [e])
              = Next (mkRun (replicate (S (S k)) P) (S k) None
                            (<[e := Obj 0]> ∅) [IncludeSchedule (inl sched)] [e])).
    { intros k. unfold room.loop_body. cbn [paths path_idx].
      rewrite lookup_replicate_2 by lia.
      rewrite <- (py_insert_replicate (S k) P).
      remember (replicate (S k) P) as ps eqn:Hps.
      simpl. rewrite lookup_insert_eq. simpl. rewrite Hgm. reflexivity. }
    induction n as [|n IH]; intros k; [reflexivity|].
    change (while_loop (S n) ?st) with
      (if bool_decide (path_idx st < length (paths st)) then
         match loop_body st with
         | Next st' => while_loop n st'
         | Return r st' => Some (Ok r, st')
         | Uncaught err st' => Some (Raise err, st')
         end
       else Some (Ok None, st)).
    cbn [paths path_idx]. rewrite length_replicate.
    rewrite bool_decide_eq_true_2 by lia. rewrite Hpass. apply IH. }
  unfold room.eval_schedule, eval_schedule_run, initial_run. rewrite Hgm.
  destruct fuel as [|fuel]; [reflexivity|]. simpl.
  unfold room.loop_body. simpl. rewrite lookup_empty.
  unfold room.eval_expr, expression.eval_expr. rewrite He. simpl.
  rewrite Hgm. simpl.
  change (path_add (new_path sched) r) with P.
  pose proof (Hloop fuel 1) as Hrest.
  change (replicate 2 P) with (py_insert 1 P (py_insert 0 P [])) in Hrest.
  unfold with_paths. cbn [path_idx result expr_cache heap evals].
  rewrite Hrest. reflexivity.
Qed.

End WholeRuns.

(** * Further properties of the room *)

(** X10: cancelling the re-schedule timer is idempotent.  Without a timer,
    [cancel_reschedule_timer] returns [False] and changes nothing; with one,
    it returns [True], and a second call finds nothing to cancel. *)
Theorem cancel_reschedule_timer_idempotent (s : State) :
  (reschedule_timer (room s) = None ->
   cancel_reschedule_timer s = Some (false, s)) /\
  exists b s',
    cancel_reschedule_timer s = Some (b, s') /\
    b = bool_decide (is_Some (reschedule_timer (room s))) /\
    reschedule_timer (room s') = None /\
    cancel_reschedule_timer s' = Some (false, s').
Proof.
  destruct s as [[rep delay acts sch wanted sv timer] a]. split.
  - simpl. intros ->. reflexivity.
  - destruct timer as [h|]; run_M; eexists; eexists;
      (split; [reflexivity|]); simpl; auto.
Qed.




Section RoomCalls.

Set Default Proof Using "Type".

Variable matches : Rule -> bool.
Variable env : Expr -> Py PyObj.
Variable validate_value : PyVal -> option PyVal.
Variable serialize_value : PyVal -> option string.
Variable fuel : nat.
Variable compile_expression : PyVal -> Py Expr.

Abbreviation apply_schedule :=
  (room.apply_schedule matches env validate_value serialize_value fuel).
Abbreviation get_scheduled_value :=
  (room.get_scheduled_value matches env validate_value fuel).
Abbreviation _reschedule_timer_cb :=
  (room._reschedule_timer_cb matches env validate_value serialize_value fuel).
Abbreviation set_value_manually :=
  (room.set_value_manually matches env validate_value fuel compile_expression).
Abbreviation eval_manual_expr :=
  (room.eval_manual_expr matches env validate_value fuel compile_expression).
Abbreviation call :=
  (run_call matches env validate_value serialize_value fuel compile_expression).
Abbreviation calls :=
  (run_calls matches env validate_value serialize_value fuel compile_expression).

(** *** What the calls do to the timer *)

Lemma same_timers_one_timer (s s' : State) :
  same_timers s s' -> one_timer s -> one_timer s'.
Proof.
  intros (Ht & Hl & Hn). unfold one_timer. rewrite Ht, Hl, Hn. auto.
Qed.

Lemma set_value_same_timers (v : PyVal) (force : bool) (s s' : State) :
  room.set_value v force s = Some (tt, s') -> same_timers s s'.
Proof.
  rewrite set_value_state. intros [= <-]. repeat split.
Qed.

Lemma apply_schedule_same_timers (send force : bool) (s s' : State)
    (res : Py unit) :
  apply_schedule send force s = Some (res, s') -> same_timers s s'.
Proof.
  unfold room.apply_schedule.
  unfold mbind at 1, M_bind at 1. unfold get_room at 1. cbv beta iota.
  destruct (bool_decide (is_Some (reschedule_timer (room s)))).
  { intros [= _ <-]. repeat split. }
  unfold mbind at 1, M_bind at 1.
  destruct (get_scheduled_value s) as [[r s1]|] eqn:Hget; [|discriminate].
  apply get_scheduled_value_pure in Hget as [-> _].
  destruct r as [[[v rule]|]|err]; try (intros [= _ <-]; repeat split).
  destruct (py_eq v (scheduled_value (room s)) && negb force).
  { intros [= _ <-]. repeat split. }
  destruct s as [r a].
  destruct (serialize_value v) as [str|] eqn:Hser; destruct send; run_M;
    rewrite ?Hser; simpl; rewrite ?send_to_actors_sent; simpl;
    intros [= _ <-]; repeat split.
Qed.

Lemma cancel_one_timer (s s' : State) (b : bool) :
  one_timer s -> cancel_reschedule_timer s = Some (b, s') -> one_timer s'.
Proof.
  destruct s as [[rep delay acts sch wanted sv timer] a]. unfold one_timer.
  simpl. destruct timer as [h|]; run_M.
  - intros [(d & Hd) _] [= _ <-]. simpl. rewrite Hd. simpl.
    rewrite Nat.eqb_refl. reflexivity.
  - intros Hd [= _ <-]. exact Hd.
Qed.

Lemma start_one_timer (s s' : State) (d : option Z) (restart b : bool) :
  one_timer s -> start_reschedule_timer d restart s = Some (b, s') ->
  one_timer s'.
Proof.
  destruct s as [[rep delay acts sch wanted sv timer] a]. unfold one_timer.
  simpl. destruct timer as [h|]; [destruct restart|]; run_M.
  - intros [(d0 & Hd) _] [= _ <-]. simpl. rewrite Hd. simpl.
    rewrite Nat.eqb_refl. simpl. split; [eauto | lia].
  - intros H [= _ <-]. exact H.
  - intros Hd [= _ <-]. simpl. rewrite Hd. simpl. split; [eauto | lia].
Qed.

Lemma same_timers_trans (s1 s2 s3 : State) :
  same_timers s1 s2 -> same_timers s2 s3 -> same_timers s1 s3.
Proof.
  intros (H1 & H2 & H3) (H4 & H5 & H6). unfold same_timers.
  rewrite H4, H5, H6. auto.
Qed.

Lemma notify_one_timer (v : PyVal) (s s' : State) :
  one_timer s -> notify_value_changed v s = Some (tt, s') -> one_timer s'.
Proof.
  intros Hone. unfold notify_value_changed.
  unfold mbind at 1, M_bind at 1. unfold get_room at 1. cbv beta iota.
  unfold mbind at 1, M_bind at 1.
  assert (Hfirst : exists s1,
            (if cfg_replicate_changes (room s) &&
                bool_decide (1 < length (actors (room s)))
             then room.set_value v false else mret tt) s = Some (tt, s1) /\
            one_timer s1).
  { destruct (cfg_replicate_changes (room s) && _).
    - rewrite set_value_state. eexists. split; [reflexivity|].
      apply (same_timers_one_timer s); [repeat split | exact Hone].
    - exists s. split; [reflexivity | exact Hone]. }
  destruct Hfirst as (s1 & -> & Hone1). cbv beta iota.
  unfold mbind at 1, M_bind at 1. unfold get_room at 1. cbv beta iota.
  destruct (py_eq v (wanted_value (room s1))).
  - unfold mbind, M_bind.
    destruct (cancel_reschedule_timer s1) as [[b s2]|] eqn:Hc; [|discriminate].
    intros [= <-]. apply (cancel_one_timer s1 s2 b Hone1 Hc).
  - destruct (negb (cfg_reschedule_delay (room s1) =? 0)%Z).
    + unfold mbind, M_bind.
      destruct (start_reschedule_timer None true s1) as [[b s2]|] eqn:Hs;
        [|discriminate].
      intros [= <-]. apply (start_one_timer s1 s2 None true b Hone1 Hs).
    + intros [= <-]. exact Hone1.
Qed.

Lemma eval_manual_expr_pure (expr_raw : PyVal) (s s' : State) (res : Py PyVal) :
  eval_manual_expr expr_raw s = Some (res, s') -> s' = s.
Proof.
  unfold room.eval_manual_expr.
  destruct (compile_expression expr_raw) as [expr|err]; [|intros [= _ <-]; reflexivity].
  destruct (expression.eval_expr env expr) as [r|err];
    [|destruct (isinstance_Exception err); intros [= _ <-]; reflexivity].
  destruct (isinstance r IncludeScheduleT).
  - destruct r as [| | | |[sched|other]|]; try (intros [= _ <-]; reflexivity).
    run_M. destruct (eval_schedule _ _ _ _ _); [|discriminate].
    intros [= _ <-]. reflexivity.
  - destruct (isinstance r ResultT); [|intros [= _ <-]; reflexivity].
    destruct (get_value r); intros [= _ <-]; reflexivity.
Qed.

Lemma set_value_manually_one_timer (e v : PyVal) (force : bool)
    (d : option Z) (s s' : State) (res : Py unit) :
  one_timer s -> set_value_manually e v force d s = Some (res, s') ->
  one_timer s'.
Proof.
  intros Hone. unfold room.set_value_manually. cbv zeta.
  destruct (negb _); [intros [= _ <-]; exact Hone|].
  unfold mbind at 1, M_bind at 1.
  assert (Hval : forall r s1,
            (if negb (is_None e) then eval_manual_expr e else mret (Ok v)) s
              = Some (r, s1) -> s1 = s).
  { intros r s1. destruct (negb (is_None e)).
    - apply eval_manual_expr_pure.
    - intros [= _ <-]. reflexivity. }
  destruct ((if negb (is_None e) then eval_manual_expr e else mret (Ok v)) s)
    as [[r s1]|]; [|discriminate].
  specialize (Hval r s1 eq_refl). subst s1.
  destruct r as [w|err]; [|intros [= _ <-]; exact Hone].
  destruct (is_None w); [intros [= _ <-]; exact Hone|].
  unfold mbind at 1, M_bind at 1. rewrite set_value_state.
  unfold mbind at 1, M_bind at 1.
  match goal with
  | |- context [start_reschedule_timer d true ?t] =>
      assert (Hone1 : one_timer t)
        by (apply (same_timers_one_timer s); [repeat split | exact Hone]);
      destruct (start_reschedule_timer d true t) as [[b s2]|] eqn:Hs;
        [|discriminate]
  end.
  intros [= _ <-]. apply (start_one_timer _ s2 d true b Hone1 Hs).
Qed.

(** X12: the room never has two timers.  When the app has armed exactly the
    timer that the room records, if any, the same holds after any sequence
    of cancelling and starting the timer, setting a value, manual requests,
    reports of actors and applications of the schedule. *)
Theorem one_timer_kept (cs : list Call) (s s' : State) :
  one_timer s -> calls cs s = Some s' -> one_timer s'.
Proof.
  revert s. induction cs as [|c cs IH]; intros s Hone; simpl.
  - intros [= <-]. exact Hone.
  - destruct (call c s) as [s1|] eqn:Hcall; [|discriminate].
    apply IH. clear IH. destruct c as [|d restart|v force|v|send force|e v force d];
      simpl in Hcall.
    + destruct (cancel_reschedule_timer s) as [[b s2]|] eqn:Hc; [|discriminate].
      injection Hcall as <-. apply (cancel_one_timer s s2 b Hone Hc).
    + destruct (start_reschedule_timer d restart s) as [[b s2]|] eqn:Hs;
        [|discriminate].
      injection Hcall as <-. apply (start_one_timer s s2 d restart b Hone Hs).
    + rewrite set_value_state in Hcall. injection Hcall as <-.
      apply (same_timers_one_timer s); [repeat split | exact Hone].
    + destruct (notify_value_changed v s) as [[[] s2]|] eqn:Hn; [|discriminate].
      injection Hcall as <-. apply (notify_one_timer v s s2 Hone Hn).
    + destruct (apply_schedule send force s) as [[r s2]|] eqn:Ha; [|discriminate].
      injection Hcall as <-.
      apply (same_timers_one_timer s); [|exact Hone].
      apply (apply_schedule_same_timers send force s s2 r Ha).
    + destruct (set_value_manually e v force d s) as [[r s2]|] eqn:Hm;
        [|discriminate].
      injection Hcall as <-.
      apply (set_value_manually_one_timer e v force d s s2 r Hone Hm).
Qed.

(** *** Applying the schedule *)

Lemma py_eq_None (v : PyVal) : v <> VNone -> py_eq v VNone = false.
Proof. destruct v; [congruence|reflexivity..]. Qed.

(** X13: with [send] off, [apply_schedule] records the value found as
    [scheduled_value] without handing it to any actor and without touching
    [wanted_value]; an application with [send] on that follows finds the
    value unchanged and sends nothing either. *)
Theorem apply_schedule_without_sending (s : State) (v : PyVal) (rule : Rule)
    (force_resend : bool) :
  reschedule_timer (room s) = None ->
  get_scheduled_value s = Some (Ok (Some (v, rule)), s) ->
  py_eq v (scheduled_value (room s)) && negb force_resend = false ->
  exists s1,
    apply_schedule false force_resend s = Some (Ok tt, s1) /\
    sent (app s1) = sent (app s) /\
    wanted_value (room s1) = wanted_value (room s) /\
    scheduled_value (room s1) = v /\
    apply_schedule true false s1 = Some (Ok tt, s1).
Proof.
  intros Ht Hget Hne.
  destruct (get_scheduled_value_pure matches env validate_value fuel s s _ Hget)
    as [_ Hpure].
  assert (Hrun : exists s1,
            apply_schedule false force_resend s = Some (Ok tt, s1) /\
            sent (app s1) = sent (app s) /\
            room s1 = mkRoom (cfg_replicate_changes (room s))
                        (cfg_reschedule_delay (room s)) (actors (room s))
                        (schedule (room s)) (wanted_value (room s)) v None).
  { unfold room.apply_schedule.
    unfold mbind at 1, M_bind at 1. unfold get_room at 1. cbv beta iota.
    rewrite Ht. rewrite bool_decide_eq_false_2 by (intros [? ?]; discriminate).
    unfold mbind at 1, M_bind at 1. rewrite Hget. cbv beta iota.
    rewrite Hne. cbv iota.
    destruct (serialize_value v) as [str|]; run_M; rewrite Ht;
      eexists; (split; [reflexivity|]); simpl; auto. }
  destruct Hrun as (s1 & Hrun & Hsent & Hroom).
  exists s1. split; [exact Hrun|]. split; [exact Hsent|].
  rewrite Hroom. simpl. split; [reflexivity|]. split; [reflexivity|].
  apply (apply_schedule_unchanged matches env validate_value serialize_value
           fuel s1 v rule true).
  - rewrite Hroom. reflexivity.
  - apply Hpure. rewrite Hroom. reflexivity.
  - rewrite Hroom. simpl. apply py_eq_refl.
Qed.

(** X14: when the re-schedule timer fires, the value that the schedule
    gives is handed to every actor again, whatever [scheduled_value] was: the
    callback forgets the timer and the cached value before it applies the
    schedule. *)
Theorem reschedule_timer_resends (s : State) (v : PyVal) (rule : Rule) :
  get_scheduled_value s = Some (Ok (Some (v, rule)), s) ->
  v <> VNone ->
  exists s',
    _reschedule_timer_cb s = Some (Ok tt, s') /\
    sent (app s') =
      sent (app s) ++ List.map (fun actor => (actor, v, false)) (actors (room s)) /\
    reschedule_timer (room s') = None /\
    scheduled_value (room s') = v /\ wanted_value (room s') = v.
Proof.
  intros Hget Hv.
  destruct (get_scheduled_value_pure matches env validate_value fuel s s _ Hget)
    as [_ Hpure].
  set (s0 := mkState
               (mkRoom (cfg_replicate_changes (room s))
                  (cfg_reschedule_delay (room s)) (actors (room s))
                  (schedule (room s)) (wanted_value (room s)) VNone None)
               (app s)).
  assert (Hcb : _reschedule_timer_cb s = apply_schedule true false s0).
  { unfold room._reschedule_timer_cb. run_M. reflexivity. }
  destruct (apply_schedule_sends matches env validate_value serialize_value
              fuel s0 v rule false) as (s' & Hrun & Hsent & Hroom).
  - reflexivity.
  - apply Hpure. reflexivity.
  - simpl. rewrite (py_eq_None v Hv). reflexivity.
  - exists s'. rewrite Hcb. split; [exact Hrun|]. split; [exact Hsent|].
    rewrite Hroom. simpl. auto.
Qed.

(** *** Manual requests *)


(** X16: a manual request with an expression counts only when the
    expression gives a [Result] or an [IncludeSchedule]: when it gives
    anything else ([Add], [Skip], [Abort], [Break]), or when its evaluation
    raises an exception that derives from [Exception], the request is
    ignored and nothing changes.  An exception that does not derive from
    [Exception] leaves [set_value_manually], and nothing changes either. *)
Theorem manual_expression_needs_result (s : State) (expr_raw : PyVal)
    (expr : Expr) (force_resend : bool) (reschedule_delay : option Z) :
  is_None expr_raw = false ->
  compile_expression expr_raw = Ok expr ->
  match expression.eval_expr env expr with
  | Ok r =>
      isinstance r IncludeScheduleT = false -> isinstance r ResultT = false ->
      set_value_manually expr_raw VNone force_resend reschedule_delay s
        = Some (Ok tt, s)
  | Raise err =>
      set_value_manually expr_raw VNone force_resend reschedule_delay s
        = Some (if isinstance_Exception err then Ok tt else Raise err, s)
  end.
Proof.
  intros He Hc. unfold room.set_value_manually. cbv zeta. simpl.
  rewrite He. simpl.
  unfold mbind at 1, M_bind at 1. unfold room.eval_manual_expr. rewrite Hc.
  destruct (expression.eval_expr env expr) as [r|err].
  - intros -> ->. reflexivity.
  - destruct (isinstance_Exception err); reflexivity.
Qed.

End RoomCalls.

(** * Properties of the generic actor *)

(** X17: a value that [filter_set_value] lets through can be sent: with it
    as the wanted value, [do_send] finds a state definition, be it the one of
    the value or the wildcard one, and calls its service.  For a value that
    the filter rejects, [do_send] fails with a [TypeError]. *)
Theorem filtered_value_can_be_sent (self : generic.Generic) (value : PyVal) :
  let wanting v :=
    generic.mkGeneric (generic.entity_id self) (generic.state_attr self)
      (generic.states self) v (generic.current_value self) in
  (generic.filter_set_value self value <> VNone ->
   exists cfg data,
     generic.do_send (wanting (generic.filter_set_value self value))
       = Ok (generic.service cfg, data) /\
     (generic.dict_get (generic.states self) value = Some cfg \/
      generic.dict_get (generic.states self) value = None /\
      generic.dict_get (generic.states self) (VStr "_other_") = Some cfg)) /\
  (generic._get_state_cfg self value = None ->
   generic.filter_set_value self value = VNone /\
   generic.do_send (wanting value) = Raise TypeError).
Proof.
  intros wanting. split.
  - unfold generic.filter_set_value.
    destruct (generic._get_state_cfg self value) as [cfg|] eqn:Hcfg.
    + rewrite bool_decide_eq_true_2 by eauto. intros _.
      unfold generic.do_send. simpl.
      change (generic._get_state_cfg (wanting value) value)
        with (generic._get_state_cfg self value).
      rewrite Hcfg. exists cfg. eexists. split; [reflexivity|].
      unfold generic._get_state_cfg in Hcfg.
      destruct (generic.dict_get (generic.states self) value) as [c|].
      * left. exact Hcfg.
      * right. split; [reflexivity | exact Hcfg].
    + rewrite bool_decide_eq_false_2 by (intros [? ?]; discriminate).
      intros H. contradiction.
  - intros Hcfg. unfold generic.filter_set_value, generic.do_send. simpl.
    change (generic._get_state_cfg (wanting value) value)
      with (generic._get_state_cfg self value).
    rewrite Hcfg. rewrite bool_decide_eq_false_2 by (intros [? ?]; discriminate).
    split; reflexivity.
Qed.

(** X18: the service call of [do_send] carries the configured service data
    unchanged; the entity of the actor is added as [entity_id] only when
    [include_entity_id] is on and the service data names no entity
    themselves. *)
Theorem do_send_keeps_service_data (self : generic.Generic) (svc : string)
    (data : gmap string PyVal) :
  generic.do_send self = Ok (svc, data) ->
  exists cfg,
    generic._get_state_cfg self (generic.wanted_value self) = Some cfg /\
    svc = generic.service cfg /\
    (forall k, k <> "entity_id"%string ->
               data !! k = generic.service_data cfg !! k) /\
    data !! "entity_id" =
      match generic.service_data cfg !! "entity_id" with
      | Some e => Some e
      | None =>
          if generic.include_entity_id cfg
          then Some (VStr (generic.entity_id self)) else None
      end.
Proof.
  unfold generic.do_send.
  destruct (generic._get_state_cfg self (generic.wanted_value self)) as [cfg|];
    [|discriminate].
  intros [= <- <-]. exists cfg. split; [reflexivity|]. split; [reflexivity|].
  unfold generic.setdefault.
  destruct (generic.include_entity_id cfg);
    destruct (generic.service_data cfg !! "entity_id") as [e|] eqn:He; split;
    try (intros k Hk); rewrite ?He; try reflexivity.
  - rewrite lookup_insert_ne by congruence. reflexivity.
  - apply lookup_insert_eq.
Qed.

(** X19: [notify_state_changed] reports changes only.  A state equal to the
    current value, a missing state, or any state when no [state_attr] is
    configured, triggers no event and changes nothing; a reported state
    becomes the current value, so that the same attributes reported again
    trigger nothing. *)
Theorem notify_state_changed_reports_changes (self : generic.Generic)
    (attrs : gmap string PyVal) :
  let after := generic.notify_state_changed self attrs in
  generic.notify_state_changed (fst after) attrs = (fst after, None) /\
  match snd after with
  | Some v =>
      v <> VNone /\ py_eq v (generic.current_value self) = false /\
      generic.current_value (fst after) = v /\
      exists attr, generic.state_attr self = Some attr /\ attrs !! attr = Some v
  | None => fst after = self
  end.
Proof.
  unfold generic.notify_state_changed.
  destruct (generic.state_attr self) as [attr|] eqn:Hattr; simpl.
  - destruct (attrs !! attr) as [state|] eqn:Hstate; simpl.
    + destruct (is_None state) eqn:Hnone; simpl.
      * rewrite Hattr, Hstate. simpl. rewrite Hnone. auto.
      * destruct (py_eq state (generic.current_value self)) eqn:Heq; simpl.
        -- rewrite Hattr, Hstate. simpl. rewrite Hnone, Heq. auto.
        -- rewrite Hstate. simpl. rewrite Hnone, py_eq_refl. simpl.
           split; [reflexivity|]. split; [apply is_None_false; exact Hnone|].
           split; [exact Heq|]. split; [reflexivity|]. eauto.
    + rewrite Hattr, Hstate. simpl. auto.
  - rewrite Hattr. auto.
Qed.

(** * Properties of the event callbacks of the app *)

Local Opaque py_eq.

Lemma find_room_first (rooms : list (string * Room)) (room_name : PyVal) :
  match app.find_room rooms room_name with
  | Some i =>
      (exists n r, rooms !! i = Some (n, r) /\ py_eq (VStr n) room_name = true) /\
      forall j n r, j < i -> rooms !! j = Some (n, r) ->
                    py_eq (VStr n) room_name = false
  | None =>
      forall j n r, rooms !! j = Some (n, r) -> py_eq (VStr n) room_name = false
  end.
Proof.
  induction rooms as [|[n r] rooms IH]; simpl.
  - intros j n r Hj. rewrite lookup_nil in Hj. discriminate.
  - destruct (py_eq (VStr n) room_name) eqn:Hn; simpl.
    + split; [exists n, r; split; [reflexivity | exact Hn]|].
      intros j n' r' Hj. lia.
    + destruct (app.find_room rooms room_name) as [i|]; simpl.
      * destruct IH as [Hi Hbefore]. split; [exact Hi|].
        intros [|j] n' r' Hj; simpl.
        -- intros [= <- <-]. exact Hn.
        -- apply Hbefore. lia.
      * intros [|j] n' r'; simpl.
        -- intros [= <- <-]. exact Hn.
        -- apply IH.
Qed.

Local Transparent py_eq.

(** X20: [get_room] returns the first room that carries the name, and
    [None] exactly when no room carries it; a name that is no string matches
    no room. *)
Theorem get_room_first_match (self : app.SchedyApp) (room_name : PyVal) :
  (forall i,
     app.get_room self room_name = Some i ->
     (exists n r, app.rooms self !! i = Some (n, r) /\ room_name = VStr n) /\
     forall j n r, j < i -> app.rooms self !! j = Some (n, r) ->
                   room_name <> VStr n) /\
  (app.get_room self room_name = None <->
   forall j n r, app.rooms self !! j = Some (n, r) -> room_name <> VStr n).
Proof.
  assert (Heq : forall n, py_eq (VStr n) room_name = true <-> room_name = VStr n).
  { intros n. destruct room_name as [|b|z|s]; simpl; split; try discriminate.
    - intros H. apply bool_decide_eq_true_1 in H. congruence.
    - intros [= ->]. apply bool_decide_eq_true_2. reflexivity. }
  assert (Hne : forall n, py_eq (VStr n) room_name = false <-> room_name <> VStr n).
  { intros n. rewrite <- Heq. destruct (py_eq (VStr n) room_name); split;
      congruence. }
  unfold app.get_room.
  pose proof (find_room_first (app.rooms self) room_name) as Hfind.
  destruct (app.find_room (app.rooms self) room_name) as [i|]; split.
  - intros i' [= <-]. destruct Hfind as [(n & r & Hi & Hn) Hbefore].
    split; [exists n, r; split; [exact Hi | apply Heq; exact Hn]|].
    intros j n' r' Hj Hl. apply Hne. apply (Hbefore j n' r' Hj Hl).
  - split; [discriminate|]. intros Hnone.
    destruct Hfind as [(n & r & Hi & Hn) _].
    exfalso. apply (Hnone i n r Hi). apply Heq. exact Hn.
  - intros i [=].
  - split; [|reflexivity]. intros _ j n r Hj. apply Hne.
    apply (Hfind j n r Hj).
Qed.

Ltac known_lookups :=
  repeat first
    [ rewrite lookup_insert_eq
    | rewrite lookup_insert_ne by discriminate
    | match goal with H : _ !! _ = _ |- _ => rewrite H end ];
  repeat first
    [ rewrite bool_decide_eq_true_2 by eauto
    | rewrite bool_decide_eq_false_2 by (intros [? ?]; discriminate) ];
  simpl.

(** The callback reads the value and the expression of an event through
    [event_value] and [event_expression]. *)
Lemma read_set_value_event_entries (self : app.SchedyApp)
    (data : gmap string PyVal) :
  app.read_set_value_event self data =
  match data !! "room_name" with
  | None => Raise app.KeyError
  | Some room_name =>
      let reschedule_delay := default VNone (data !! "reschedule_delay") in
      if negb (is_None reschedule_delay ||
               bool_decide (is_Some (as_int reschedule_delay)))
      then Raise TypeError
      else if match as_int reschedule_delay with
              | Some n => (n <? 0)%Z
              | None => false
              end
      then Raise ValueError
      else
        match event_expression data, event_value data with
        | Some _, Some _ => Raise ValueError
        | Some e, None =>
            if app.expressions_from_events self
            then Ok (room_name, e, VNone, reschedule_delay)
            else Raise ValueError
        | None, Some v => Ok (room_name, VNone, v, reschedule_delay)
        | None, None => Raise ValueError
        end
  end.
Proof.
  unfold app.read_set_value_event.
  destruct (data !! "room_name") as [room_name|]; [|reflexivity]. cbv zeta.
  destruct (negb _); [reflexivity|].
  destruct (match as_int _ with Some n => _ | None => false end); [reflexivity|].
  unfold app.replace_key, generic.setdefault, event_expression, event_value.
  destruct (data !! "v") as [v|] eqn:Hv;
    destruct (data !! "value") as [value|] eqn:Hvalue;
    destruct (data !! "x") as [x|] eqn:Hx;
    destruct (data !! "expression") as [e|] eqn:He;
    known_lookups; try reflexivity;
    destruct (app.expressions_from_events self); reflexivity.
Qed.

Section EventFacts.

Set Default Proof Using "Type".

Variable matches : Rule -> bool.
Variable env : string -> Expr -> Py PyObj.
Variable validate_value : PyVal -> option PyVal.
Variable fuel : nat.
Variable compile_expression : PyVal -> Py Expr.

Abbreviation _set_value_event_cb :=
  (app._set_value_event_cb matches env validate_value fuel compile_expression).

(** The callback reads an event through six entries only. *)
Lemma set_value_event_entries (self : app.SchedyApp)
    (data data' : gmap string PyVal) :
  data' !! "app_name" = data !! "app_name" ->
  data' !! "room_name" = data !! "room_name" ->
  data' !! "reschedule_delay" = data !! "reschedule_delay" ->
  data' !! "force_resend" = data !! "force_resend" ->
  event_value data' = event_value data ->
  event_expression data' = event_expression data ->
  _set_value_event_cb data' self = _set_value_event_cb data self.
Proof.
  intros Ha Hr Hd Hf Hv He. unfold app._set_value_event_cb.
  rewrite !read_set_value_event_entries. rewrite Ha, Hr, Hd, Hf, Hv, He.
  reflexivity.
Qed.

(** X21: the short entries [v] and [x] of a [schedy_set_value] event stand
    for [value] and [expression]: an event that gives its value as [v], or
    its expression as [x], is handled exactly like the event that gives it
    under the long name. *)
Theorem set_value_event_aliases (self : app.SchedyApp)
    (data : gmap string PyVal) (given : PyVal) :
  (data !! "value" = None -> data !! "v" = Some given ->
   _set_value_event_cb (<["value" := given]> (delete "v" data)) self =
   _set_value_event_cb data self) /\
  (data !! "expression" = None -> data !! "x" = Some given ->
   _set_value_event_cb (<["expression" := given]> (delete "x" data)) self =
   _set_value_event_cb data self).
Proof.
  split; intros Hlong Hshort; apply set_value_event_entries;
    unfold event_value, event_expression;
    repeat first
      [ rewrite lookup_insert_eq
      | rewrite lookup_insert_ne by discriminate
      | rewrite lookup_delete_eq
      | rewrite lookup_delete_ne by discriminate ];
    rewrite ?Hlong, ?Hshort; reflexivity.
Qed.

(** X22: an event that the callback cannot use changes nothing: an event
    for another app, without room name, for a room that does not exist, with
    a delay that is a string or negative, with both a value and an
    expression or with neither, or with an expression while
    [expressions_from_events] is off. *)
Theorem set_value_event_rejected (self : app.SchedyApp)
    (data : gmap string PyVal) :
  (exists other, data !! "app_name" = Some other /\
                 py_eq other (VStr (app.name self)) = false) \/
  data !! "room_name" = None \/
  (exists room_name, data !! "room_name" = Some room_name /\
                     app.get_room self room_name = None) \/
  (exists s, data !! "reschedule_delay" = Some (VStr s)) \/
  (exists d n, data !! "reschedule_delay" = Some d /\ as_int d = Some n /\
               (n < 0)%Z) \/
  (is_Some (event_expression data) /\ is_Some (event_value data)) \/
  (event_expression data = None /\ event_value data = None) \/
  (is_Some (event_expression data) /\ app.expressions_from_events self = false) ->
  _set_value_event_cb data self = Some (Ok tt, self).
Proof.
  intros Hbad. unfold app._set_value_event_cb. cbv zeta.
  destruct (py_eq (default (VStr (app.name self)) (data !! "app_name"))
                  (VStr (app.name self))) eqn:Happ; [|reflexivity].
  simpl negb. cbv iota.
  rewrite read_set_value_event_entries.
  destruct Hbad as [(other & Ho & Hne)|Hbad].
  { rewrite Ho in Happ. simpl in Happ. rewrite Hne in Happ. discriminate. }
  destruct (data !! "room_name") as [room_name|] eqn:Hroom; [|reflexivity].
  destruct Hbad as [Hbad|Hbad]; [discriminate|]. cbv zeta.
  set (d := default VNone (data !! "reschedule_delay")) in *.
  destruct (negb (is_None d || bool_decide (is_Some (as_int d)))) eqn:Htype;
    [reflexivity|].
  destruct (match as_int d with Some n => (n <? 0)%Z | None => false end)
    eqn:Hneg; [reflexivity|].
  destruct Hbad as [(rn & [= <-] & Hnone)|Hbad].
  { destruct (event_expression data), (event_value data);
      try reflexivity; try (rewrite Hnone; reflexivity).
    destruct (app.expressions_from_events self); [rewrite Hnone|]; reflexivity. }
  destruct Hbad as [(s & Hs)|Hbad].
  { unfold d in Htype. rewrite Hs in Htype. discriminate. }
  destruct Hbad as [(d' & n & Hd & Hn & Hlt)|Hbad].
  { unfold d in Hneg. rewrite Hd in Hneg. simpl in Hneg. rewrite Hn in Hneg.
    apply Z.ltb_ge in Hneg. lia. }
  destruct Hbad as [[[e He] [v Hv]]|Hbad].
  { rewrite He, Hv. reflexivity. }
  destruct Hbad as [[He Hv]|[[e He] Hoff]].
  - rewrite He, Hv. reflexivity.
  - rewrite He, Hoff. destruct (event_value data); reflexivity.
Qed.

(** X23: an event reaches one room at most.  Whatever the callback does,
    it does by one call of [set_value_manually] on the first room that
    carries the name of the event; the other rooms, their names and the
    settings of the app stay as they are. *)
Theorem set_value_event_reaches_one_room (self self' : app.SchedyApp)
    (data : gmap string PyVal) (res : Py unit) :
  _set_value_event_cb data self = Some (res, self') ->
  app.name self' = app.name self /\
  app.expressions_from_events self' = app.expressions_from_events self /\
  (self' = self \/
   exists i n r s' room_name expr value force_resend delay,
     data !! "room_name" = Some room_name /\
     app.get_room self room_name = Some i /\
     app.rooms self !! i = Some (n, r) /\
     room.set_value_manually matches (env n) validate_value fuel
       compile_expression expr value force_resend delay
       (mkState r (app.collab self)) = Some (res, s') /\
     app.rooms self' = <[i := (n, room s')]> (app.rooms self) /\
     app.collab self' = app s').
Proof.
  unfold app._set_value_event_cb. cbv zeta.
  destruct (negb _); [intros [= <- <-]; auto|].
  destruct (app.read_set_value_event self data) as [[[[rn expr] value] delay]|err]
    eqn:Hread; [|intros [= <- <-]; auto].
  assert (Hroom : data !! "room_name" = Some rn).
  { rewrite read_set_value_event_entries in Hread.
    destruct (data !! "room_name") as [rn'|]; [|discriminate]. cbv zeta in Hread.
    destruct (negb _); [discriminate|].
    destruct (match as_int _ with Some n => _ | None => false end);
      [discriminate|].
    destruct (event_expression data), (event_value data); try discriminate.
    - destruct (app.expressions_from_events self); [|discriminate].
      injection Hread as -> _ _ _. reflexivity.
    - injection Hread as -> _ _ _. reflexivity. }
  destruct (app.get_room self rn) as [i|] eqn:Hget; [|intros [= <- <-]; auto].
  unfold app.in_room.
  destruct (app.rooms self !! i) as [[n r]|] eqn:Hi.
  - unfold room.notify_set_value_event.
    destruct (room.set_value_manually matches (env n) validate_value fuel
                compile_expression expr value _ _ _) as [[res' s']|] eqn:Hrun;
      [|discriminate].
    intros Hres.
    assert (Hres' : res = res' /\
              self' = app.mkSchedyApp (app.name self)
                        (app.expressions_from_events self)
                        (<[i := (n, room s')]> (app.rooms self)) (app s')).
    { destruct res'; injection Hres as <- <-; auto. }
    destruct Hres' as [<- ->]. simpl. split; [reflexivity|].
    split; [reflexivity|]. right.
    exists i, n, r, s', rn, expr, value. eexists. eexists.
    split; [exact Hroom|]. split; [exact Hget|]. split; [exact Hi|].
    split; [exact Hrun|]. split; reflexivity.
  - intros [= <- <-]. auto.
Qed.

(** X24: an event whose value is [None] passes the checks of the callback,
    which only ask for the entry; [set_value_manually] then finds neither an
    expression nor a value, its assertion fails, and the callback ends with
    that error and no change to any room. *)
Theorem set_value_event_with_None (self : app.SchedyApp)
    (data : gmap string PyVal) (room_name : PyVal) (i : nat) :
  data !! "app_name" = None ->
  data !! "room_name" = Some room_name ->
  data !! "reschedule_delay" = None ->
  event_expression data = None ->
  event_value data = Some VNone ->
  app.get_room self room_name = Some i ->
  _set_value_event_cb data self = Some (Raise room.AssertionError, self).
Proof.
  intros Happ Hroom Hdelay Hexpr Hvalue Hget.
  unfold app._set_value_event_cb. cbv zeta.
  rewrite Happ. simpl default. rewrite py_eq_refl. simpl negb. cbv iota.
  rewrite read_set_value_event_entries. rewrite Hroom, Hdelay, Hexpr, Hvalue.
  simpl. rewrite Hget.
  pose proof (find_room_first (app.rooms self) room_name) as Hfirst.
  unfold app.get_room in Hget. rewrite Hget in Hfirst.
  destruct Hfirst as [(n & r & Hi & _) _].
  unfold app.in_room. rewrite Hi.
  unfold room.notify_set_value_event, room.set_value_manually. simpl.
  rewrite (list_insert_id _ _ _ Hi). destruct self. reflexivity.
Qed.

End EventFacts.

(** * The further properties on the examples *)

Import more_examples.

Lemma env_override_never_includes : never_includes (env_override Skip).
Proof.
  intros e sched. destruct e as [|[|[|[|[|e]]]]]; discriminate.
Defined.

Lemma env_override_raises_exceptions_only :
  raises_exceptions_only (env_override Skip).
Proof.
  intros e err. destruct e as [|[|[|[|[|e]]]]]; try discriminate.
  intros [= <-]. reflexivity.
Defined.

Lemma eval_schedule_escaping_exceptions_witness :
  (eval_schedule always env_exit generic.validate_value 10 looping
     = Some (Raise SystemExit) /\
   escapes env_exit SystemExit) /\
  (eval_schedule always env_exit generic.validate_value 10 misincluding
     = Some (Raise AttributeError) /\
   escapes env_exit AttributeError) /\
  (eval_schedule always (env_override Skip) generic.validate_value 10 mixed
     = Some (Ok (Some (VInt 5, mkRule 53 (Some 4) VNone None))) /\
   exists r, Ok (Some (VInt 5, mkRule 53 (Some 4) VNone None)) = Ok r).
Proof.
  destruct (eval_schedule_escaping_exceptions always env_exit
              generic.validate_value) as (Honly & _ & Hraise & Hinclude).
  destruct (eval_schedule_escaping_exceptions always (env_override Skip)
              generic.validate_value) as (_ & Hordinary & _).
  assert (Hexit : eval_schedule always env_exit generic.validate_value 10
                    looping = Some (Raise SystemExit)).
  { apply (Hraise 9 looping (mkRule 71 (Some 0) VNone None) [] 0 SystemExit);
      reflexivity. }
  assert (Hattr : eval_schedule always env_exit generic.validate_value 10
                    misincluding = Some (Raise AttributeError)).
  { apply (Hinclude 9 misincluding (mkRule 73 (Some 1) VNone None) [] 1 VNone);
      reflexivity. }
  split; [|split].
  - split; [exact Hexit|]. apply (Honly 10 looping SystemExit Hexit).
  - split; [exact Hattr|]. apply (Honly 10 misincluding AttributeError Hattr).
  - split; [reflexivity|].
    apply (Hordinary env_override_raises_exceptions_only) with (fuel := 10)
                                                               (sched := mixed).
    + intros e other. destruct e as [|[|[|[|[|e]]]]]; discriminate.
    + reflexivity.
Defined.

Lemma eval_schedule_terminates_witness :
  exists r,
    eval_schedule always (env_override Skip) generic.validate_value 6 nested
    = Some (Ok r).
Proof.
  destruct (eval_schedule_terminates always (env_override Skip)
              generic.validate_value 6 nested env_override_never_includes)
    as (res & Hrun & Hok).
  - vm_compute. lia.
  - destruct (Hok env_override_raises_exceptions_only) as [r ->].
    exists r. exact Hrun.
Defined.

Lemma eval_schedule_returns_valid_witness :
  VInt 5 <> VNone /\
  always (mkRule 53 (Some 4) VNone None) = true /\
  rule_sub_schedule (mkRule 53 (Some 4) VNone None) = None.
Proof.
  apply (eval_schedule_returns_valid always (env_override Skip)
           generic.validate_value 10 mixed). reflexivity.
Defined.

Lemma first_literal_rule_wins_witness :
  eval_schedule always (env_override Skip) generic.validate_value 1 constant
  = Some (Ok (Some (VInt 20, mkRule 41 None (VInt 20) None))).
Proof.
  apply (first_literal_rule_wins always (env_override Skip)
           generic.validate_value 0 constant (mkRule 41 None (VInt 20) None) []);
    reflexivity.
Defined.

Lemma sub_schedule_value_is_default_witness :
  eval_schedule always (env_override Skip) generic.validate_value 2 defaulted
  = Some (Ok (Some (VInt 18, bare))).
Proof.
  apply (sub_schedule_value_is_default always (env_override Skip)
           generic.validate_value 0 defaulted (mkSchedule 83 [bare]) holder bare
           [] []); reflexivity.
Defined.

Lemma accumulated_values_add_witness :
  eval_schedule always (env_override Skip) generic.validate_value 2 summed
  = Some (Ok (Some (VInt 5, mkRule 62 (Some 4) VNone None))).
Proof.
  apply (accumulated_values_add always (env_override Skip)
           generic.validate_value 0 summed (mkRule 61 (Some 0) VNone None)
           (mkRule 62 (Some 4) VNone None) [] 0 4 (VInt 2) (VInt 3) (VInt 2)
           (VInt 3) (VInt 5)); reflexivity.
Defined.

Lemma skipping_schedule_gives_none_witness :
  @Ok (option (PyVal * Rule)) None = Ok None /\
  eval_schedule without_literal env_skip generic.validate_value 10 overrides
  = Some (Ok None).
Proof.
  split; [|reflexivity].
  apply (skipping_schedule_gives_none without_literal env_skip
           generic.validate_value 10 overrides).
  - intros e. left. reflexivity.
  - intros r Hr. unfold without_literal in Hr. destruct (rule_value r);
      [reflexivity | discriminate..].
  - reflexivity.
Defined.

Lemma self_including_schedule_never_returns_witness :
  eval_schedule always env_loop generic.validate_value 1000 looping = None.
Proof.
  apply (self_including_schedule_never_returns always env_loop
           generic.validate_value 1000 70 71 0 VNone); reflexivity.
Defined.

Lemma cancel_reschedule_timer_idempotent_witness :
  cancel_reschedule_timer (two_actor_room true)
  = Some (false, two_actor_room true).
Proof.
  apply (cancel_reschedule_timer_idempotent (two_actor_room true)). reflexivity.
Defined.


Lemma one_timer_kept_witness :
  match
    run_calls always (env_override Skip) generic.validate_value no_mirror 10
      compile_0
      [CallApply true false; CallNotify (VInt 22);
       CallManual VNone (VInt 23) false None; CallCancel] fresh_room
  with
  | Some s' => one_timer s'
  | None => False
  end.
Proof.
  destruct (run_calls always (env_override Skip) generic.validate_value
              no_mirror 10 compile_0
              [CallApply true false; CallNotify (VInt 22);
               CallManual VNone (VInt 23) false None; CallCancel] fresh_room)
    as [s'|] eqn:Hrun.
  - apply (one_timer_kept always (env_override Skip) generic.validate_value
             no_mirror 10 compile_0
             [CallApply true false; CallNotify (VInt 22);
              CallManual VNone (VInt 23) false None; CallCancel]
             fresh_room s'); [reflexivity | exact Hrun].
  - vm_compute in Hrun. discriminate Hrun.
Defined.

Lemma apply_schedule_without_sending_witness :
  exists s1,
    room.apply_schedule always (env_override Skip) generic.validate_value
      no_mirror 10 false false fresh_room = Some (Ok tt, s1) /\
    sent (app s1) = [] /\ scheduled_value (room s1) = VInt 20 /\
    room.apply_schedule always (env_override Skip) generic.validate_value
      no_mirror 10 true false s1 = Some (Ok tt, s1).
Proof.
  destruct (apply_schedule_without_sending always (env_override Skip)
              generic.validate_value no_mirror 10 fresh_room (VInt 20)
              (mkRule 41 None (VInt 20) None) false eq_refl eq_refl eq_refl)
    as (s1 & H1 & Hsent & _ & Hsv & H2).
  exists s1. auto.
Defined.

Lemma reschedule_timer_resends_witness :
  exists s',
    room._reschedule_timer_cb always (env_override Skip) generic.validate_value
      no_mirror 10 waiting_room = Some (Ok tt, s') /\
    sent (app s') = [(0, VInt 20, false); (0, VInt 20, false)] /\
    reschedule_timer (room s') = None.
Proof.
  destruct (reschedule_timer_resends always (env_override Skip)
              generic.validate_value no_mirror 10 waiting_room (VInt 20)
              (mkRule 41 None (VInt 20) None) eq_refl)
    as (s' & Hcb & Hsent & Ht & _).
  - discriminate.
  - exists s'. auto.
Defined.


Lemma manual_expression_needs_result_witness :
  room.set_value_manually always (env_override Skip) generic.validate_value
    10 compile_0 (VStr "Add(2)") VNone false None fresh_room
  = Some (Ok tt, fresh_room) /\
  room.set_value_manually always (env_override Skip) generic.validate_value
    10 compile_9 (VStr "1/0") VNone false None fresh_room
  = Some (Ok tt, fresh_room) /\
  room.set_value_manually always env_exit generic.validate_value
    10 compile_0 (VStr "exit()") VNone false None fresh_room
  = Some (Raise SystemExit, fresh_room).
Proof.
  split; [|split].
  - exact (manual_expression_needs_result always (env_override Skip)
             generic.validate_value 10 compile_0 fresh_room (VStr "Add(2)") 0
             false None eq_refl eq_refl eq_refl eq_refl).
  - exact (manual_expression_needs_result always (env_override Skip)
             generic.validate_value 10 compile_9 fresh_room (VStr "1/0") 9
             false None eq_refl eq_refl).
  - exact (manual_expression_needs_result always env_exit
             generic.validate_value 10 compile_0 fresh_room (VStr "exit()") 0
             false None eq_refl eq_refl).
Defined.

Lemma filtered_value_can_be_sent_witness :
  (exists cfg data,
     generic.do_send
       (generic.mkGeneric "switch.lamp" (Some "state"%string)
          [(VStr "on", turn_on); (VStr "off", turn_off)]
          (generic.filter_set_value lamp (VStr "on")) (VStr "off"))
     = Ok (generic.service cfg, data)) /\
  generic.do_send
    (generic.mkGeneric "switch.lamp" (Some "state"%string)
       [(VStr "on", turn_on); (VStr "off", turn_off)] (VStr "dim") (VStr "off"))
  = Raise TypeError.
Proof.
  destruct (filtered_value_can_be_sent lamp (VStr "on")) as [Hsend _].
  destruct (filtered_value_can_be_sent lamp (VStr "dim")) as [_ Hfail].
  split.
  - destruct Hsend as (cfg & data & Hdo & _); [discriminate|].
    exists cfg, data. exact Hdo.
  - apply Hfail. reflexivity.
Defined.

Lemma do_send_keeps_service_data_witness :
  exists cfg,
    generic._get_state_cfg lamp (VStr "off") = Some cfg /\
    "homeassistant/turn_off"%string = generic.service cfg /\
    (<["entity_id" := VStr "switch.other"]> ∅ : gmap string PyVal) !! "entity_id"
    = Some (VStr "switch.other").
Proof.
  destruct (do_send_keeps_service_data lamp "homeassistant/turn_off"
              (<["entity_id" := VStr "switch.other"]> ∅) eq_refl)
    as (cfg & Hcfg & Hsvc & _ & _).
  exists cfg. split; [exact Hcfg|]. split; [exact Hsvc | reflexivity].
Defined.

Lemma get_room_first_match_witness :
  (exists n r, app.rooms house !! 1 = Some (n, r) /\ VStr "bath" = VStr n) /\
  forall j n r, app.rooms house !! j = Some (n, r) -> VStr "attic" <> VStr n.
Proof.
  destruct (get_room_first_match house (VStr "bath")) as [Hfound _].
  destruct (get_room_first_match house (VStr "attic")) as [_ Hmissing].
  split.
  - apply (Hfound 1). reflexivity.
  - apply Hmissing. reflexivity.
Defined.

Lemma set_value_event_aliases_witness :
  app._set_value_event_cb always env_house generic.validate_value 10 compile_0
    (<["value" := VInt 21]> (delete "v" event_v)) house
  = app._set_value_event_cb always env_house generic.validate_value 10
      compile_0 event_v house.
Proof.
  apply (set_value_event_aliases always env_house generic.validate_value 10
           compile_0 house event_v (VInt 21)); reflexivity.
Defined.

Lemma set_value_event_rejected_witness :
  app._set_value_event_cb always env_house generic.validate_value 10 compile_0
    event_both house
  = Some (Ok tt, house).
Proof.
  apply (set_value_event_rejected always env_house generic.validate_value 10
           compile_0 house event_both).
  do 5 right. left. split; eexists; reflexivity.
Defined.

Lemma set_value_event_reaches_one_room_witness :
  match
    app._set_value_event_cb always env_house generic.validate_value 10
      compile_0 event_v house
  with
  | Some (_, house') => app.name house' = "schedy"%string
  | None => False
  end.
Proof.
  destruct (app._set_value_event_cb always env_house generic.validate_value 10
              compile_0 event_v house) as [[res house']|] eqn:Hcb.
  - destruct (set_value_event_reaches_one_room always env_house
                generic.validate_value 10 compile_0 house house' event_v res Hcb)
      as (Hname & _).
    exact Hname.
  - vm_compute in Hcb. discriminate Hcb.
Defined.

Lemma set_value_event_with_None_witness :
  app._set_value_event_cb always env_house generic.validate_value 10 compile_0
    event_none house
  = Some (Raise AssertionError, house).
Proof.
  apply (set_value_event_with_None always env_house generic.validate_value 10
           compile_0 house event_none (VStr "bath") 1); reflexivity.
Defined.

Lemma insert_paths_splice_witness :
  insert_paths [path_A; path_AE] 1 path_AB [rule_C; rule_D]
    = [path_A; path_ABC; path_ABD; path_AE] /\
  insert_paths [path_A] 5 path_AB [rule_C; rule_D]
    = [path_A; path_ABC; path_ABD].
Proof.
  destruct (insert_paths_splice [path_A; path_AE] 1 path_AB [rule_C; rule_D])
    as (Hmiddle & _).
  destruct (insert_paths_splice [path_A] 5 path_AB [rule_C; rule_D])
    as (_ & _ & Hend).
  split.
  - rewrite Hmiddle. reflexivity.
  - rewrite Hend; [reflexivity | simpl; lia].
Defined.
